(** * censusalign: precinct-to-block reallocation and Hamilton apportionment

    A shallow embedding of the apportionment engine of the [censusalign]
    package: [Blockify.rollup] (blockify.py), [Graphify.blockify]
    (graphify.py) and [Cultivate.blockify] (cultivate.py), together with the
    [hamilton_floor] static method that the three classes share verbatim.

    Modelling conventions.
    - A pandas [DataFrame] is a list of records, in row order.
    - A [float64] cell is [NaN], an infinity, or a finite value carried as an
      exact rational: finite arithmetic is exact (no rounding error and no
      overflow), and the two zeros are identified.  Every concrete input used
      below is a small dyadic value on which binary64 arithmetic is exact.
    - An [int64] cell is an unbounded [Z].
    - String keys are [string]; Python compares them by code point, which is
      [String.compare] on bytes.
    - Exceptions are an explicit [result] type. *)

From Stdlib Require Import String Ascii.
From Stdlib Require Import ZArith QArith Qround List Bool Lia Lqa.
From Stdlib Require Import Sorting.Sorted Sorting.Permutation OrderedTypeEx.
Import ListNotations.

Local Open Scope Z_scope.

(** ** Exceptions *)

Inductive exn : Type :=
| ValueError          (* raised by the level dispatch *)
| IntCastingNaNError. (* raised by [astype(int)] on NaN or infinity; in
                         pandas a subclass of ValueError, kept apart here *)

Inductive result (A : Type) : Type :=
| Ok (a : A)
| Raise (e : exn).
Arguments Ok {A} a.
Arguments Raise {A} e.

Definition bind {A B : Type} (r : result A) (k : A -> result B) : result B :=
  match r with
  | Ok a => k a
  | Raise e => Raise e
  end.

Notation "x <- r ;; k" := (bind r (fun x => k))
  (at level 61, r at next level, right associativity).

(** ** The float64 model *)

Inductive float64 : Type :=
| Fin (q : Q)
| PInf
| NInf
| NaN.

Definition of_int (z : Z) : float64 := Fin (inject_Z z).

Definition isna (x : float64) : bool :=
  match x with NaN => true | _ => false end.

Definition isinf (x : float64) : bool :=
  match x with PInf | NInf => true | _ => false end.

Definition Qltb (x y : Q) : bool :=
  match Qcompare x y with Lt => true | _ => false end.

(** [x > 0] on a float column; false on NaN. *)
Definition fgt0 (x : float64) : bool :=
  match x with
  | Fin q => Qltb 0 q
  | PInf => true
  | NInf | NaN => false
  end.

(** An infinity of the sign given by a comparison with zero; [0 * inf] and
    [0 / 0] are NaN. *)
Definition signed_inf (c : comparison) : float64 :=
  match c with Gt => PInf | Lt => NInf | Eq => NaN end.

Definition fmul (x y : float64) : float64 :=
  match x, y with
  | NaN, _ | _, NaN => NaN
  | Fin a, Fin b => Fin (a * b)
  | Fin a, PInf | PInf, Fin a => signed_inf (Qcompare a 0)
  | Fin a, NInf | NInf, Fin a => signed_inf (CompOpp (Qcompare a 0))
  | PInf, PInf | NInf, NInf => PInf
  | PInf, NInf | NInf, PInf => NInf
  end.

Definition fdiv (x y : float64) : float64 :=
  match x, y with
  | NaN, _ | _, NaN => NaN
  | Fin a, Fin b =>
      match Qcompare b 0 with
      | Eq => signed_inf (Qcompare a 0)
      | _ => Fin (a / b)
      end
  | Fin _, PInf | Fin _, NInf => Fin 0
  | PInf, Fin b => match Qcompare b 0 with Lt => NInf | _ => PInf end
  | NInf, Fin b => match Qcompare b 0 with Lt => PInf | _ => NInf end
  | _, _ => NaN
  end.

(** [replace([inf, -inf], nan)] on one cell. *)
Definition replace_inf (x : float64) : float64 :=
  if isinf x then NaN else x.

(** ** Python's [round]: round half to even *)

Definition py_round (x : Q) : Z :=
  let f := Qfloor x in
  match Qcompare (x - inject_Z f) (1 # 2) with
  | Lt => f
  | Gt => f + 1
  | Eq => if Z.even f then f else f + 1
  end.

(** ** [hamilton_floor] *)

(** The fractional part [v - floor(v)]. *)
Definition frac (q : Q) : Q := q - inject_Z (Qfloor q).

Definition Zsum (l : list Z) : Z := fold_right Z.add 0 l.
Definition Qsum (l : list Q) : Q := fold_right Qplus 0%Q l.

(** [np.floor(values).astype(int)] needs every cell finite; the finite cells
    are returned, or [None] where the cast raises. *)
Fixpoint finite_values (values : list float64) : option (list Q) :=
  match values with
  | [] => Some []
  | Fin q :: vs => option_map (cons q) (finite_values vs)
  | _ :: _ => None
  end.

(** Stable sort of (index, value) pairs by descending value: the order in
    which [Series.nlargest(keep="first")] ranks a series. *)
Fixpoint insert_desc (x : nat * Q) (l : list (nat * Q)) : list (nat * Q) :=
  match l with
  | [] => [x]
  | y :: l' => if Qltb (snd x) (snd y) then y :: insert_desc x l' else x :: l
  end.

Fixpoint sort_desc (l : list (nat * Q)) : list (nat * Q) :=
  match l with
  | [] => []
  | x :: l' => insert_desc x (sort_desc l')
  end.

Definition enumerate {A : Type} (l : list A) : list (nat * A) :=
  combine (seq 0 (length l)) l.

(** [remainder.nlargest(n).index] *)
Definition nlargest (n : nat) (remainder : list Q) : list nat :=
  firstn n (map fst (sort_desc (enumerate remainder))).

Definition mem (i : nat) (l : list nat) : bool := existsb (Nat.eqb i) l.

(** [floored.loc[top_indices] += 1] (the index labels are unique). *)
Definition loc_add1 (top_indices : list nat) (floored : list Z) : list Z :=
  map (fun p => if mem (fst p) top_indices then snd p + 1 else snd p)
      (enumerate floored).

Definition hamilton_floor (values : list float64) : result (list Z) :=
  if forallb isna values then Ok (repeat 0 (length values))
  else
    match finite_values values with
    | None => Raise IntCastingNaNError
    | Some qs =>
        let floored := map Qfloor qs in
        let remainder := map frac qs in
        let n_remaining := py_round (Qsum remainder) in
        if 0 <? n_remaining
        then Ok (loc_add1 (nlargest (Z.to_nat n_remaining) remainder) floored)
        else Ok floored
    end.

(** ** Tables *)

(** A row of [election_df] after [__init__]: the two vote columns were cast
    with [astype(int)]. *)
Record vote_row : Type := {
  v_SRPREC_KEY : string;
  v_dem : Z;
  v_rep : Z
}.

(** A row of [conversion_df] after [__init__]: both keys are present, the
    two weights are floats (NaN where the cell is missing). *)
Record conversion_row : Type := {
  SRPREC_KEY : string;
  BLOCK_KEY : string;
  BLKREG : float64;
  SRTOTREG : float64
}.

(** The state of the three classes once constructed. *)
Record frames : Type := {
  election_df : list vote_row;
  conversion_df : list conversion_row
}.

(** A row of [merged]; the vote columns became floats in the left merge. *)
Record merged_row : Type := {
  m_conv : conversion_row;
  m_dem : float64;
  m_rep : float64
}.

(** A row of [merged] with the two raw allocation columns. *)
Record raw_row : Type := {
  r_merged : merged_row;
  dem_raw : float64;
  rep_raw : float64
}.

Definition r_key (r : raw_row) : string := SRPREC_KEY (m_conv (r_merged r)).
Definition r_block (r : raw_row) : string := BLOCK_KEY (m_conv (r_merged r)).

(** A row of [merged] after apportionment: integer [dem] and [rep]. *)
Record alloc_row : Type := {
  a_SRPREC_KEY : string;
  a_BLOCK_KEY : string;
  a_dem : Z;
  a_rep : Z
}.

(** A row of a returned table. *)
Record out_row : Type := {
  geoid : string;
  tot : Z;
  dem : Z;
  rep : Z
}.

(** ** Proportional allocation (lines 66-78 of the three methods) *)

Definition matches (c : conversion_row) (v : vote_row) : bool :=
  (v_SRPREC_KEY v =? SRPREC_KEY c)%string.

(** [conversion_df.merge(election_df, on="SRPREC_KEY", how="left")] *)
Definition merge_left (conv : list conversion_row) (votes : list vote_row)
  : list merged_row :=
  flat_map
    (fun c =>
       match filter (matches c) votes with
       | [] => [ {| m_conv := c; m_dem := NaN; m_rep := NaN |} ]
       | vs =>
           map (fun v => {| m_conv := c;
                            m_dem := of_int (v_dem v);
                            m_rep := of_int (v_rep v) |}) vs
       end)
    conv.

(** [dropna(subset=["BLKREG", "SRTOTREG", "dem", "rep"])] *)
Definition inputs_present (m : merged_row) : bool :=
  negb (isna (BLKREG (m_conv m)) || isna (SRTOTREG (m_conv m))
        || isna (m_dem m) || isna (m_rep m)).

(** [merged[merged["SRTOTREG"] > 0]] *)
Definition positive_total (m : merged_row) : bool := fgt0 (SRTOTREG (m_conv m)).

(** [merged[c] * merged["BLKREG"] / merged["SRTOTREG"]] *)
Definition raw_allocation (count : float64) (c : conversion_row) : float64 :=
  fdiv (fmul count (BLKREG c)) (SRTOTREG c).

Definition add_raw (m : merged_row) : raw_row :=
  {| r_merged := m;
     dem_raw := raw_allocation (m_dem m) (m_conv m);
     rep_raw := raw_allocation (m_rep m) (m_conv m) |}.

(** [merged.replace([np.inf, -np.inf], np.nan, inplace=True)]: every float
    column of the frame. *)
Definition replace_inf_row (r : raw_row) : raw_row :=
  let m := r_merged r in
  let c := m_conv m in
  {| r_merged :=
       {| m_conv := {| SRPREC_KEY := SRPREC_KEY c;
                       BLOCK_KEY := BLOCK_KEY c;
                       BLKREG := replace_inf (BLKREG c);
                       SRTOTREG := replace_inf (SRTOTREG c) |};
          m_dem := replace_inf (m_dem m);
          m_rep := replace_inf (m_rep m) |};
     dem_raw := replace_inf (dem_raw r);
     rep_raw := replace_inf (rep_raw r) |}.

(** [dropna(subset=["dem_raw", "rep_raw"])] *)
Definition raw_present (r : raw_row) : bool :=
  negb (isna (dem_raw r) || isna (rep_raw r)).

Definition allocate_raw (self : frames) : list raw_row :=
  let merged := merge_left (conversion_df self) (election_df self) in
  let merged := filter inputs_present merged in
  let merged := filter positive_total merged in
  let merged := map add_raw merged in
  let merged := map replace_inf_row merged in
  filter raw_present merged.

(** ** Apportionment within each precinct (lines 80-86) *)

Definition same_key (k : string) (r : raw_row) : bool := (r_key r =? k)%string.

(** [merged.groupby("SRPREC_KEY")[col].transform(hamilton_floor)]: the
    function is applied to each precinct's rows, taken in row order, and
    every result goes back to the row it came from.  [seen] holds the rows
    before [rest]. *)
Fixpoint transform_from (col : raw_row -> float64) (all seen rest : list raw_row)
  : result (list Z) :=
  match rest with
  | [] => Ok []
  | r :: rest' =>
      out <- hamilton_floor (map col (filter (same_key (r_key r)) all)) ;;
      zs <- transform_from col all (seen ++ [r]) rest' ;;
      Ok (nth (length (filter (same_key (r_key r)) seen)) out 0 :: zs)
  end.

Definition transform (col : raw_row -> float64) (merged : list raw_row)
  : result (list Z) :=
  transform_from col merged [] merged.

(** One row of [merged] with its two apportioned counts. *)
Definition to_alloc (x : raw_row * Z * Z) : alloc_row :=
  {| a_SRPREC_KEY := r_key (fst (fst x));
     a_BLOCK_KEY := r_block (fst (fst x));
     a_dem := snd (fst x);
     a_rep := snd x |}.

Definition apportion (merged : list raw_row) : result (list alloc_row) :=
  dems <- transform dem_raw merged ;;
  reps <- transform rep_raw merged ;;
  Ok (map to_alloc (combine (combine merged dems) reps)).

(** ** Aggregation (lines 88-118) *)

Definition keyed : Type := (string * (Z * Z))%type.

(** One step of a grouped sum: the groups are kept in ascending key order. *)
Fixpoint add_to_group (x : keyed) (groups : list keyed) : list keyed :=
  match groups with
  | [] => [x]
  | g :: gs =>
      match String.compare (fst x) (fst g) with
      | Lt => x :: groups
      | Eq => (fst g, (fst (snd g) + fst (snd x), snd (snd g) + snd (snd x))) :: gs
      | Gt => g :: add_to_group x gs
      end
  end.

(** [groupby(key)[["dem", "rep"]].sum().reset_index()] *)
Definition groupby_sum (rows : list keyed) : list keyed :=
  fold_right add_to_group [] rows.

(** [agg["tot"] = agg["dem"] + agg["rep"]] *)
Definition with_tot (g : keyed) : out_row :=
  {| geoid := fst g;
     tot := fst (snd g) + snd (snd g);
     dem := fst (snd g);
     rep := snd (snd g) |}.

(** [s[:n]] *)
Definition str_prefix (n : nat) (s : string) : string := substring 0 n s.

(** [s[-1]]; absent on the empty string. *)
Fixpoint str_last (s : string) : option ascii :=
  match s with
  | EmptyString => None
  | String c EmptyString => Some c
  | String _ s' => str_last s'
  end.

(** [block_votes["blockgroup"].str[-1] != "0"], where [blockgroup] is the
    key cut to [n] characters. *)
Definition not_sentinel (n : nat) (key : string) : bool :=
  match str_last (str_prefix n key) with
  | Some c => negb (Ascii.eqb c "0")
  | None => true
  end.

(** [sort_values(key)], a stable insertion sort on the identifier. *)
Fixpoint insert_row (x : out_row) (l : list out_row) : list out_row :=
  match l with
  | [] => [x]
  | y :: l' =>
      if String.ltb (geoid y) (geoid x) then y :: insert_row x l' else x :: l
  end.

Definition sort_values (l : list out_row) : list out_row :=
  fold_right insert_row [] l.

(** The grouping key and the summed columns of [groupby("BLOCK_KEY")]. *)
Definition by_block (a : alloc_row) : keyed := (a_BLOCK_KEY a, (a_dem a, a_rep a)).

(** The grouping key and the summed columns of [groupby(geoid_col)], where
    [geoid_col] holds [BLOCK_KEY.str[:n]]. *)
Definition by_prefix (n : nat) (b : out_row) : keyed :=
  (str_prefix n (geoid b), (dem b, rep b)).

(** Lines 88-95: sum to one row per block, drop the water-only blocks, sort.
    [n] is the length of the block-group prefix the class uses. *)
Definition block_table (n : nat) (merged : list alloc_row) : list out_row :=
  let block_votes := map with_tot (groupby_sum (map by_block merged)) in
  let block_df := filter (fun b => not_sentinel n (geoid b)) block_votes in
  sort_values block_df.

(** Lines 115-118: regroup the block table on a prefix of the key. *)
Definition aggregate (n : nat) (block_df : list out_row) : list out_row :=
  let agg := map with_tot (groupby_sum (map (by_prefix n) block_df)) in
  sort_values agg.

(** ** The three entry points

    The three methods run the same lines 66-95 and differ in the length of
    the block-group prefix and in the levels they accept.  [rollup] ignores
    its [race] argument, which is left out. *)

Module Blockify.

Definition rollup (self : frames) (level : string) : result (list out_row) :=
  merged <- apportion (allocate_raw self) ;;
  let block_df := block_table 12 merged in
  if (level =? "block")%string then Ok block_df
  else if (level =? "blockgroup")%string then Ok (aggregate 12 block_df)
  else if (level =? "tract")%string then Ok (aggregate 11 block_df)
  else if (level =? "county")%string then Ok (aggregate 5 block_df)
  else Raise ValueError.

End Blockify.

Module Graphify.

(** At level "block" the returned frame carries a copy of [BLOCK_KEY] under
    the name [GEOID_block]; the other columns are those of [block_df]. *)
Definition blockify (self : frames) (level : string) : result (list out_row) :=
  merged <- apportion (allocate_raw self) ;;
  let block_df := block_table 12 merged in
  if (level =? "block")%string then Ok block_df
  else if (level =? "blockgroup")%string then Ok (aggregate 12 block_df)
  else if (level =? "tract")%string then Ok (aggregate 11 block_df)
  else if (level =? "county")%string then Ok (aggregate 5 block_df)
  else Raise ValueError.

End Graphify.

Module Cultivate.

(** This class reads its tables without a [dtype], so a key made of digits
    is an integer and loses its leading zero; [BLOCK_KEY] is grouped first
    and turned into text with [astype(str)] afterwards, and the block group
    is taken as the first 11 characters of that text.  The keys are modelled
    by their text: grouping on the integer or on its text gives the same
    groups, and [sort_values] puts the block table in text order. *)
Definition blockify (self : frames) (level : string) : result (list out_row) :=
  merged <- apportion (allocate_raw self) ;;
  let block_df := block_table 11 merged in
  if (level =? "blockgroup")%string then Ok (aggregate 11 block_df)
  else Raise ValueError.

End Cultivate.

(** ** The example of the specification *)

Definition spec_example : frames :=
  {| election_df := [ {| v_SRPREC_KEY := "P1"; v_dem := 10; v_rep := 5 |};
                      {| v_SRPREC_KEY := "P2"; v_dem := 8; v_rep := 4 |} ];
     conversion_df :=
       [ {| SRPREC_KEY := "P1"; BLOCK_KEY := "060010001001001";
            BLKREG := Fin 30; SRTOTREG := Fin 100 |};
         {| SRPREC_KEY := "P1"; BLOCK_KEY := "060010001002001";
            BLKREG := Fin 70; SRTOTREG := Fin 100 |};
         {| SRPREC_KEY := "P2"; BLOCK_KEY := "060010001001002";
            BLKREG := Fin 0; SRTOTREG := Fin 0 |} ] |}.

(** ** Notions used in the statements and in the proofs *)


(** [n_remaining] and [top_indices] of [hamilton_floor] on a finite group. *)
Definition n_remaining (qs : list Q) : Z := py_round (Qsum (map frac qs)).

Definition top_indices (qs : list Q) : list nat :=
  nlargest (Z.to_nat (n_remaining qs)) (map frac qs).




(** Strict order on keys: Python's [<] on strings. *)
Definition slt (a b : string) : Prop := String.compare a b = Lt.

(** The sum of one column over the rows whose key satisfies [P]. *)
Definition sum_where (P : string -> bool) (f : keyed -> Z) (l : list keyed) : Z :=
  Zsum (map f (filter (fun x => P (fst x)) l)).

Definition kdem (x : keyed) : Z := fst (snd x).
Definition krep (x : keyed) : Z := snd (snd x).

(** Strictly ascending keys, in a grouped sum and in a returned table. *)
Definition keys_sorted (l : list keyed) : Prop := StronglySorted slt (map fst l).
Definition ids_sorted (l : list out_row) : Prop := StronglySorted slt (map geoid l).

(** The sentinel test and the prefix rule on a group of a grouped sum. *)
Definition live (n : nat) (g : keyed) : bool := not_sentinel n (fst g).
Definition on_prefix (n : nat) (g : keyed) : keyed := (str_prefix n (fst g), snd g).

(** Finite cells and their value. *)
Definition is_fin (x : float64) : bool :=
  match x with Fin _ => true | _ => false end.

Definition fin_value (x : float64) : Q :=
  match x with Fin q => q | _ => 0%Q end.


(** The two tables as one state. *)
Definition on_votes (votes : list vote_row) (conv : list conversion_row) : frames :=
  {| election_df := votes; conversion_df := conv |}.

(** The four level names of the docstrings. *)
Definition recognized (level : string) : bool :=
  ((level =? "block") || (level =? "blockgroup") ||
   (level =? "tract") || (level =? "county"))%string.

(** [grouped_by target blocks out]: [out] has one row per value of [target]
    on the identifiers of [blocks], holding the sums of the rows of [blocks]
    with that value. *)
Definition grouped_by (target : string -> string) (blocks out : list out_row) : Prop :=
  (forall t, In t (map geoid out) <-> exists b, In b blocks /\ target (geoid b) = t) /\
  (forall o, In o out ->
     dem o = Zsum (map dem (filter (fun b => (geoid o =? target (geoid b))%string) blocks)) /\
     rep o = Zsum (map rep (filter (fun b => (geoid o =? target (geoid b))%string) blocks))) /\
  NoDup (map geoid out).

(** One precinct, one block whose 12-character block-group code ends in 1.
    The state code has no leading zero, so the key has the same 15
    characters whether it was read as text or as an integer. *)
Definition one_block : frames :=
  {| election_df := [ {| v_SRPREC_KEY := "P1"; v_dem := 10; v_rep := 5 |} ];
     conversion_df :=
       [ {| SRPREC_KEY := "P1"; BLOCK_KEY := "360010001011001";
            BLKREG := Fin 100; SRTOTREG := Fin 100 |} ] |}.


(** Aggregation of the apportioned rows to a prefix of the block key with
    no block table in between: drop the rows of water-only blocks, group on
    the prefix, sum each choice, add the total. *)
Definition direct_aggregate (m n : nat) (rows : list alloc_row) : list out_row :=
  map with_tot
      (groupby_sum
         (map (fun a => (str_prefix n (a_BLOCK_KEY a), (a_dem a, a_rep a)))
              (filter (fun a => not_sentinel m (a_BLOCK_KEY a)) rows))).

(** The table grouped on [h] of the block key, from the live rows. *)
Definition table_on (m : nat) (h : string -> string) (rows : list alloc_row)
  : list out_row :=
  map with_tot
      (groupby_sum (map (fun g => (h (fst g), snd g))
                        (filter (live m) (map by_block rows)))).


(** An entry point returned a table grouped on the first [n] characters. *)
Definition groups_on (n : nat) (blocks : list out_row) (r : result (list out_row)) : Prop :=
  exists out, r = Ok out /\ grouped_by (str_prefix n) blocks out.







(** ** Further notions *)



(** A vote record that some conversion row refers to. *)
Definition referenced (conv : list conversion_row) (v : vote_row) : bool :=
  existsb (fun c => matches c v) conv.





(** One precinct of two blocks whose registrations cover its total. *)
Definition covered_example : frames :=
  {| election_df := [ {| v_SRPREC_KEY := "P1"; v_dem := 10; v_rep := 5 |} ];
     conversion_df :=
       [ {| SRPREC_KEY := "P1"; BLOCK_KEY := "060010001001001";
            BLKREG := Fin 30; SRTOTREG := Fin 100 |};
         {| SRPREC_KEY := "P1"; BLOCK_KEY := "060010001002001";
            BLKREG := Fin 70; SRTOTREG := Fin 100 |} ] |}.

(** * Population, geometry and the graph

    [merge_population_and_geometry], [create] / [graphify] and
    [_add_edge_by_geoid] of graphify.py and cultivate.py.  Geometries and
    the two libraries that work on them (geopandas for [buffer] and
    [to_crs], gerrychain for [Graph.from_geodataframe]) are parameters. *)

(** ** Float sums with [skipna] *)

Definition fadd (x y : float64) : float64 :=
  match x, y with
  | NaN, _ | _, NaN => NaN
  | Fin a, Fin b => Fin (a + b)
  | PInf, NInf | NInf, PInf => NaN
  | PInf, _ | _, PInf => PInf
  | NInf, _ | _, NInf => NInf
  end.

(** One more cell in a sum that skips NaN. *)
Definition nanadd (acc x : float64) : float64 :=
  if isna x then acc else fadd acc x.

(** The sum of a column with [skipna]: 0 when every cell is NaN.  Finite
    addition is exact here, so the order of the additions is immaterial. *)
Definition nansum (l : list float64) : float64 :=
  fold_right (fun x acc => nanadd acc x) (Fin 0) l.

(** ** Tables *)

(** A row of the shapefile, with the four columns that are kept. *)
Record shape_row (G : Type) : Type := {
  s_GEOID20 : string;
  s_geometry : G;
  STATEFP20 : string;
  COUNTYFP20 : string
}.
Arguments s_GEOID20 {G} _.
Arguments s_geometry {G} _.
Arguments STATEFP20 {G} _.
Arguments COUNTYFP20 {G} _.

(** A row of the block-level population file: the block key as the text
    that [astype(str)] gives, and the population column. *)
Record census_row : Type := {
  BLOCK20 : string;
  CIT_22 : float64
}.

(** A row of the frame that [merge_population_and_geometry] returns. *)
Record pop_row (G : Type) : Type := {
  p_GEOID20 : string;
  p_geometry : G;
  FIPS : string;
  pop_total : float64
}.
Arguments p_GEOID20 {G} _.
Arguments p_geometry {G} _.
Arguments FIPS {G} _.
Arguments pop_total {G} _.

(** A row of [gdf] once the votes are merged in. *)
Record joined_row (G : Type) : Type := {
  j_pop : pop_row G;
  j_vote : out_row
}.
Arguments j_pop {G} _.
Arguments j_vote {G} _.

(** A networkx graph: its nodes and its undirected edges. *)
Record graph : Type := {
  nodes : list nat;
  edges : list (nat * nat)
}.

(** The geometry libraries. [from_geodataframe] is called with
    [ignore_errors=False] and may raise. *)
Record geo_lib (G : Type) : Type := {
  buffer0 : G -> G;
  to_crs : G -> G;
  from_geodataframe : list (joined_row G) -> option graph
}.
Arguments buffer0 {G} _.
Arguments to_crs {G} _.
Arguments from_geodataframe {G} _.

(** ** [merge_population_and_geometry] *)

Definition popkey : Type := (string * float64)%type.

(** One step of [groupby("GEOID20").sum(numeric_only=True)] on the
    population column, the groups in ascending key order. *)
Fixpoint add_to_pop (x : popkey) (groups : list popkey) : list popkey :=
  match groups with
  | [] => [(fst x, nanadd (Fin 0) (snd x))]
  | g :: gs =>
      match String.compare (fst x) (fst g) with
      | Lt => (fst x, nanadd (Fin 0) (snd x)) :: groups
      | Eq => (fst g, nanadd (snd g) (snd x)) :: gs
      | Gt => g :: add_to_pop x gs
      end
  end.

Definition groupby_pop (rows : list popkey) : list popkey :=
  fold_right add_to_pop [] rows.

(** [blockgroup_data]: population by the first 11 characters of the block
    key, the key then prefixed with "0". *)
Definition blockgroup_data (census : list census_row) : list popkey :=
  map (fun g => (String "0" (fst g), snd g))
      (groupby_pop (map (fun b => (str_prefix 11 (BLOCK20 b), CIT_22 b)) census)).

(** [pd.merge(left, right, on="GEOID20", how="inner")]: the left rows in
    order, each with the right rows of the same key. *)
Definition merge_inner {A B C : Type} (lkey : A -> string) (rkey : B -> string)
  (mk : A -> B -> C) (left : list A) (right : list B) : list C :=
  flat_map (fun a => map (mk a) (filter (fun b => (rkey b =? lkey a)%string) right)) left.

(** [sort_values(by=key)], as a stable insertion sort.  pandas sorts with an
    unstable quicksort, so rows of equal key may come in another order
    there. *)
Fixpoint insert_on {A : Type} (key : A -> string) (x : A) (l : list A) : list A :=
  match l with
  | [] => [x]
  | y :: l' =>
      if String.ltb (key y) (key x) then y :: insert_on key x l' else x :: l
  end.

Definition sort_on {A : Type} (key : A -> string) (l : list A) : list A :=
  fold_right (insert_on key) [] l.

Definition merge_population_and_geometry {G : Type} (lib : geo_lib G)
  (shapes : list (shape_row G)) (census : list census_row) : list (pop_row G) :=
  let gdf :=
    merge_inner s_GEOID20 fst
      (fun s g => {| p_GEOID20 := s_GEOID20 s;
                     p_geometry := buffer0 lib (s_geometry s);
                     FIPS := STATEFP20 s ++ COUNTYFP20 s;
                     pop_total := snd g |})
      shapes (blockgroup_data census) in
  let gdf := map (fun p => {| p_GEOID20 := p_GEOID20 p;
                              p_geometry := to_crs lib (p_geometry p);
                              FIPS := FIPS p;
                              pop_total := pop_total p |}) gdf in
  sort_on p_GEOID20 gdf.

(** ** [_add_edge_by_geoid] *)

(** [gdf.index[gdf["GEOID20"] == geoid].tolist()[0]]; [None] where the
    list is empty and the subscript raises IndexError. *)
Fixpoint first_index (geoid : string) (ids : list string) : option nat :=
  match ids with
  | [] => None
  | x :: l =>
      if (x =? geoid)%string then Some 0%nat
      else option_map S (first_index geoid l)
  end.

Definition joins (u v : nat) (e : nat * nat) : bool :=
  ((fst e =? u) && (snd e =? v) || (fst e =? v) && (snd e =? u))%nat.

Definition has_edge (g : graph) (u v : nat) : bool := existsb (joins u v) (edges g).

Definition add_node (u : nat) (ns : list nat) : list nat :=
  if mem u ns then ns else ns ++ [u].

(** [graph.add_edge(u, v)]: both ends become nodes, an edge already there
    is not added again. *)
Definition add_edge (g : graph) (u v : nat) : graph :=
  {| nodes := add_node v (add_node u (nodes g));
     edges := if has_edge g u v then edges g else edges g ++ [(u, v)] |}.

Definition warning (geoid1 geoid2 : string) : string :=
  "Warning: One of the GEOIDs " ++ geoid1 ++ ", " ++ geoid2 ++ " not found in gdf.".

(** The graph and what was printed so far. *)
Definition world : Type := (graph * list string)%type.

(** The body shared by the two classes; [warn] tells whether the handler of
    IndexError prints. *)
Definition add_edge_by_geoid (warn : bool) (ids : list string) (w : world)
  (pair : string * string) : world :=
  match first_index (fst pair) ids, first_index (snd pair) ids with
  | Some index1, Some index2 => (add_edge (fst w) index1 index2, snd w)
  | _, _ => (fst w, if warn then snd w ++ [warning (fst pair) (snd pair)] else snd w)
  end.

(** [for geoid1, geoid2 in custom_edges: self._add_edge_by_geoid(...)] *)
Definition add_custom_edges (warn : bool) (ids : list string) (w : world)
  (custom_edges : list (string * string)) : world :=
  fold_left (add_edge_by_geoid warn ids) custom_edges w.

(** ** [create] and [graphify] *)

Inductive graph_exn : Type :=
| FromBlockify (e : exn) (* what [blockify] raised *)
| KeyError               (* no column "GEOID20" *)
| GeometryError.         (* what [Graph.from_geodataframe] raised *)

Inductive built (A : Type) : Type :=
| Built (a : A)
| Fails (e : graph_exn).
Arguments Built {A} a.
Arguments Fails {A} e.

Definition join_votes {G : Type} (gdf : list (pop_row G)) (votes : list out_row)
  : list (joined_row G) :=
  merge_inner p_GEOID20 geoid (fun p o => {| j_pop := p; j_vote := o |}) gdf votes.

Definition j_GEOID20 {G : Type} (j : joined_row G) : string := p_GEOID20 (j_pop j).

Definition finish_graph {G : Type} (lib : geo_lib G) (warn : bool)
  (gdf : list (joined_row G)) (custom_edges : list (string * string))
  : built world :=
  match from_geodataframe lib gdf with
  | None => Fails GeometryError
  | Some graph =>
      Built (add_custom_edges warn (map j_GEOID20 gdf) (graph, []) custom_edges)
  end.

(** The name of the identifier column of the frame that
    [Graphify.blockify] returns (lines 97-109 of graphify.py). *)
Definition geoid_col (level : string) : string :=
  if (level =? "tract")%string then "GEOID_TRACT"
  else if (level =? "county")%string then "GEOID_COUNTY"
  else "GEOID_" ++ level.

(** [Graphify.create], up to the frame handed to [Graph.from_geodataframe]:
    [rename] gives the votes a column "GEOID20" only when the column
    [f"GEOID_{level}"] exists, and [pd.merge] raises KeyError without it.
    The two files are taken as read. *)
Definition create_gdf {G : Type} (lib : geo_lib G) (self : frames)
  (shapes : list (shape_row G)) (census : list census_row) (level : string)
  : built (list (joined_row G)) :=
  match Graphify.blockify self level with
  | Raise e => Fails (FromBlockify e)
  | Ok block_df =>
      let gdf := merge_population_and_geometry lib shapes census in
      if (geoid_col level =? "GEOID_" ++ level)%string
      then Built (join_votes gdf block_df)
      else Fails KeyError
  end.

(** [Graphify.create]: the graph and the warnings printed. *)
Definition create {G : Type} (lib : geo_lib G) (self : frames)
  (shapes : list (shape_row G)) (census : list census_row) (level : string)
  (custom_edges : list (string * string)) : built world :=
  match create_gdf lib self shapes census level with
  | Fails e => Fails e
  | Built gdf => finish_graph lib true gdf custom_edges
  end.

(** ["0" + vote_by_block_df["GEOID20"]] *)
Definition zero_prefixed (o : out_row) : out_row :=
  {| geoid := String "0" (geoid o); tot := tot o; dem := dem o; rep := rep o |}.

(** [Cultivate.graphify], up to the frame handed to
    [Graph.from_geodataframe]: the votes are always those of level
    "blockgroup", whose identifier column is "GEOID_blockgroup"; [rename]
    looks for [f"GEOID_{level}"], and the next line raises KeyError when
    there is no column "GEOID20".  [shapes] and [census] stand for
    [self.shapefile_df] and [self.census_df]. *)
Definition graphify_gdf {G : Type} (lib : geo_lib G) (self : frames)
  (shapes : list (shape_row G)) (census : list census_row) (level : string)
  : built (list (joined_row G)) :=
  match Cultivate.blockify self "blockgroup" with
  | Raise e => Fails (FromBlockify e)
  | Ok vote_by_block_df =>
      if ("GEOID_" ++ level =? "GEOID_blockgroup")%string
      then
        let votes := map zero_prefixed vote_by_block_df in
        let gdf := merge_population_and_geometry lib shapes census in
        Built (join_votes gdf votes)
      else Fails KeyError
  end.

(** [Cultivate.graphify]: the graph; [_add_edge_by_geoid] is called with
    its default [warnings=False].  The status lines written by
    [_print_status] are not modelled. *)
Definition graphify {G : Type} (lib : geo_lib G) (self : frames)
  (shapes : list (shape_row G)) (census : list census_row) (level : string)
  (custom_edges : list (string * string)) : built world :=
  match graphify_gdf lib self shapes census level with
  | Fails e => Fails e
  | Built gdf => finish_graph lib false gdf custom_edges
  end.

(** ** Notions for the statements on the graph *)

(** Ascending order on keys. *)
Definition sle (a b : string) : Prop := String.compare b a <> Lt.

(** Rows in ascending order of a key, ties allowed. *)
Definition ascending {A : Type} (key : A -> string) (l : list A) : Prop :=
  StronglySorted (fun a b => sle (key a) (key b)) l.

(** Strictly ascending keys in the grouped population, and the sum of one
    key with NaN skipped. *)
Definition pop_keys_sorted (l : list popkey) : Prop := StronglySorted slt (map fst l).

Definition key_sum (k : string) (rows : list popkey) : float64 :=
  nansum (map snd (filter (fun r => (fst r =? k)%string) rows)).

(** The block-group identifier that [blockgroup_data] gives a census block. *)
Definition census_geoid (b : census_row) : string :=
  String "0" (str_prefix 11 (BLOCK20 b)).

Definition has_population (census : list census_row) (g : string) : bool :=
  existsb (fun b => (census_geoid b =? g)%string) census.

Definition population_of (census : list census_row) (g : string) : float64 :=
  nansum (map CIT_22 (filter (fun b => (census_geoid b =? g)%string) census)).

(** The row that a shape with population becomes. *)
Definition populated {G : Type} (lib : geo_lib G) (census : list census_row)
  (s : shape_row G) : pop_row G :=
  {| p_GEOID20 := s_GEOID20 s;
     p_geometry := to_crs lib (buffer0 lib (s_geometry s));
     FIPS := STATEFP20 s ++ COUNTYFP20 s;
     pop_total := population_of census (s_GEOID20 s) |}.

(** A listed pair both of whose identifiers are rows of the frame, as the
    edge between the first rows that carry them. *)
Definition listed_edge (ids : list string) (pair : string * string) : option (nat * nat) :=
  match first_index (fst pair) ids, first_index (snd pair) ids with
  | Some i, Some j => Some (i, j)
  | _, _ => None
  end.

Definition wanted (ids : list string) (custom_edges : list (string * string))
  (u v : nat) : bool :=
  existsb (fun pair => match listed_edge ids pair with
                       | Some e => joins u v e
                       | None => false
                       end) custom_edges.

Definition unlisted (ids : list string) (pair : string * string) : bool :=
  match listed_edge ids pair with Some _ => false | None => true end.

(** A geometry library over trivial geometries, for the examples. *)
Definition unit_lib : geo_lib unit :=
  {| buffer0 := fun g => g;
     to_crs := fun g => g;
     from_geodataframe := fun gdf => Some {| nodes := seq 0 (length gdf); edges := [] |} |}.

Definition two_shapes : list (shape_row unit) :=
  [ {| s_GEOID20 := "060010001002"; s_geometry := tt;
       STATEFP20 := "06"; COUNTYFP20 := "001" |};
    {| s_GEOID20 := "060010001001"; s_geometry := tt;
       STATEFP20 := "06"; COUNTYFP20 := "001" |} ].

Definition three_blocks : list census_row :=
  [ {| BLOCK20 := "60010001001001"; CIT_22 := Fin 12 |};
    {| BLOCK20 := "60010001002001"; CIT_22 := NaN |};
    {| BLOCK20 := "60010001001002"; CIT_22 := Fin (5 # 2) |} ].

(** A row of the votes carries the identifier of the population row [p]. *)
Definition has_vote {G : Type} (votes : list out_row) (p : pop_row G) : bool :=
  existsb (fun o => (geoid o =? p_GEOID20 p)%string) votes.

(** [rows] is what the inner merge of [gdf] with [votes] must hold: the rows
    of [gdf] that have votes, in the order of [gdf], each with the vote row
    of its identifier; and each row is found again by its identifier when
    the shapes carry distinct identifiers. *)
Definition graph_rows {G : Type} (lib : geo_lib G) (shapes : list (shape_row G))
  (census : list census_row) (votes : list out_row) (rows : list (joined_row G)) : Prop :=
  map j_pop rows = filter (has_vote votes) (merge_population_and_geometry lib shapes census) /\
  (forall j, In j rows -> In (j_vote j) votes /\ geoid (j_vote j) = j_GEOID20 j) /\
  (forall g, In g (map j_GEOID20 rows) <->
     In g (map s_GEOID20 shapes) /\ has_population census g = true /\
     In g (map geoid votes)) /\
  ascending j_GEOID20 rows /\
  (NoDup (map s_GEOID20 shapes) ->
   forall i j, nth_error rows i = Some j ->
     first_index (j_GEOID20 j) (map j_GEOID20 rows) = Some i).

(** Two listed pairs: one between the two shapes of [two_shapes], one with
    an identifier that no frame holds. *)
Definition two_pairs : list (string * string) :=
  [ ("060010001001", "060010001002"); ("060010001001", "069999999999") ]%string.


(** * Construction: the year

    [Harvest.__init__] (harvest.py) and the first two statements of
    [Cultivate.__init__], which builds a [Harvest] from the [year] it was
    given.  Reading the YAML file is a parameter. *)

(** The values of [year] considered: an integer (the default of
    [Harvest]) or a text (the default of [Cultivate]). *)
Inductive pyval : Type :=
| PyInt (z : Z)
| PyStr (s : string).

(** Python's [!=]: an integer and a text are never equal. *)
Definition py_ne (a b : pyval) : bool :=
  match a, b with
  | PyInt x, PyInt y => negb (x =? y)
  | PyStr s, PyStr t => negb (s =? t)%string
  | _, _ => true
  end.

(** What [yaml.safe_load] gives: texts, lists and mappings. *)
Unset Elimination Schemes.
Inductive yaml : Type :=
| YText (s : string)
| YList (l : list yaml)
| YMap (m : list (string * yaml)).
Set Elimination Schemes.

(** The mapping at the top of a config file, as the dict it is loaded
    into: one entry per key. *)
Definition config : Type := list (string * yaml).

Fixpoint config_get (key : string) (cfg : config) : option yaml :=
  match cfg with
  | [] => None
  | (k, v) :: rest => if (k =? key)%string then Some v else config_get key rest
  end.

Inductive init_exn : Type :=
| YearError                  (* ValueError: only the year 2022 *)
| ConfigError                (* whatever [_load_config] raised *)
| MissingKey (key : string). (* KeyError on the config *)

Inductive made (A : Type) : Type :=
| Made (a : A)
| Refused (e : init_exn).
Arguments Made {A} a.
Arguments Refused {A} e.

Record harvest : Type := {
  h_year : pyval;
  h_config : config;
  vote_url : yaml;
  conversion_url : yaml;
  census_url : yaml;
  shapefile_url : yaml
}.

(** [self.config[key]] *)
Definition subscript (cfg : config) (key : string) : made yaml :=
  match config_get key cfg with
  | Some v => Made v
  | None => Refused (MissingKey key)
  end.

Definition and_then {A B : Type} (m : made A) (k : A -> made B) : made B :=
  match m with
  | Made a => k a
  | Refused e => Refused e
  end.

(** [Harvest.__init__] *)
Definition harvest_init (load_config : pyval -> option config) (year : pyval)
  : made harvest :=
  if py_ne year (PyInt 2022) then Refused YearError
  else
    match load_config year with
    | None => Refused ConfigError
    | Some cfg =>
        and_then (subscript cfg "SRPREC_vote_url") (fun vote =>
        and_then (subscript cfg "conversion_url") (fun conversion =>
        and_then (subscript cfg "census_url") (fun census =>
        and_then (subscript cfg "shapefile_url") (fun shapefile =>
        Made {| h_year := year; h_config := cfg;
                vote_url := vote; conversion_url := conversion;
                census_url := census; shapefile_url := shapefile |}))))
    end.

(** [Cultivate.__init__] as far as [harvester = Harvest(year=year)]: its
    own config is read first, with the same [_load_config]. *)
Definition cultivate_harvester (load_config : pyval -> option config) (year : pyval)
  : made harvest :=
  match load_config year with
  | None => Refused ConfigError
  | Some _ => harvest_init load_config year
  end.

(** A loader that finds a config with the four addresses for every year. *)
Definition any_year_config (year : pyval) : option config :=
  Some [ ("SRPREC_vote_url"%string, YText "v"); ("conversion_url"%string, YText "c");
         ("census_url"%string, YText "b"); ("shapefile_url"%string, YText "s") ].


(** * Properties *)

(** ** Examples *)

Example hamilton_spec_example_A :
  hamilton_floor [Fin 3; Fin 7] = Ok [3; 7].
Proof. reflexivity. Qed.

Example hamilton_spec_example_B :
  hamilton_floor [Fin (3 # 2); Fin (7 # 2)] = Ok [2; 3].
Proof. reflexivity. Qed.

Example hamilton_half :
  hamilton_floor [Fin (3 # 2)] = Ok [1].
Proof. reflexivity. Qed.

Example hamilton_mixed :
  hamilton_floor [NaN; Fin 1] = Raise IntCastingNaNError.
Proof. reflexivity. Qed.

Example rollup_spec_example_block :
  Blockify.rollup spec_example "block" =
  Ok [ {| geoid := "060010001001001"; tot := 5; dem := 3; rep := 2 |};
       {| geoid := "060010001002001"; tot := 10; dem := 7; rep := 3 |} ].
Proof. vm_compute. reflexivity. Qed.

Example rollup_spec_example_tract :
  Blockify.rollup spec_example "tract" =
  Ok [ {| geoid := "06001000100"; tot := 15; dem := 10; rep := 5 |} ].
Proof. vm_compute. reflexivity. Qed.

(** ** Rounding *)











(** ** Sums *)

Lemma Zsum_app l1 l2 : Zsum (l1 ++ l2) = Zsum l1 + Zsum l2.
Proof. induction l1; simpl; lia. Qed.



(** ** Ranking: [nlargest] *)




Lemma combine_seq_snd {A : Type} (l : list A) s :
  map snd (combine (seq s (length l)) l) = l.
Proof.
  revert s. induction l as [| x l IH]; intros s; simpl; [reflexivity |].
  now rewrite IH.
Qed.







Lemma mem_In i l : mem i l = true <-> In i l.
Proof.
  unfold mem. rewrite existsb_exists. split.
  - intros [x [Hx E]]. apply Nat.eqb_eq in E. now subst.
  - intros H. exists i. split; [assumption | apply Nat.eqb_refl].
Qed.

(** ** [loc[...] += 1] *)

Lemma loc_add1_nil fl : loc_add1 [] fl = fl.
Proof.
  unfold loc_add1, enumerate. simpl. exact (combine_seq_snd fl 0).
Qed.






(** ** [hamilton_floor] on finite groups *)

Lemma finite_values_Fin qs : finite_values (map Fin qs) = Some qs.
Proof. induction qs as [| q qs IH]; simpl; [| rewrite IH]; reflexivity. Qed.


Lemma hamilton_floor_finite qs :
  hamilton_floor (map Fin qs) = Ok (loc_add1 (top_indices qs) (map Qfloor qs)).
Proof.
  unfold hamilton_floor, top_indices. destruct qs as [| q qs'].
  - reflexivity.
  - simpl forallb. rewrite finite_values_Fin. fold (n_remaining (q :: qs')).
    destruct (Z.ltb_spec 0 (n_remaining (q :: qs'))) as [H | H]; [reflexivity |].
    replace (Z.to_nat (n_remaining (q :: qs'))) with 0%nat by lia.
    unfold nlargest. simpl firstn. now rewrite loc_add1_nil.
Qed.



(** ** The ranking is by descending remainder, earlier rows first *)












(** ** The contract of [hamilton_floor] *)





Lemma nth_map_frac qs i : (i < length qs)%nat -> nth i (map frac qs) 0%Q = frac (nth i qs 0%Q).
Proof.
  intros Hi. rewrite (nth_indep _ 0%Q (frac 0)) by now rewrite length_map.
  apply map_nth.
Qed.







(** ** The order on keys *)

Lemma slt_trans a b c : slt a b -> slt b c -> slt a c.
Proof.
  unfold slt. change String.compare with String_as_OT.cmp.
  rewrite !String_as_OT.cmp_lt. apply String_as_OT.lt_trans.
Qed.

Lemma slt_irrefl a : ~ slt a a.
Proof.
  unfold slt. intros H.
  assert (E : String_as_OT.cmp a a = Eq) by now apply String_as_OT.cmp_eq.
  unfold String_as_OT.cmp in E. congruence.
Qed.

Lemma slt_asym a b : slt a b -> ~ slt b a.
Proof. intros H1 H2. exact (slt_irrefl a (slt_trans _ _ _ H1 H2)). Qed.

Lemma compare_Gt_slt a b : String.compare a b = Gt -> slt b a.
Proof.
  unfold slt. intros H. rewrite String.compare_antisym, H. reflexivity.
Qed.

Lemma compare_Eq_eq a b : String.compare a b = Eq -> a = b.
Proof. apply String.compare_eq_iff. Qed.

Lemma ltb_slt a b : String.ltb a b = true <-> slt a b.
Proof.
  unfold String.ltb, slt. destruct (String.compare a b); split; congruence.
Qed.

Lemma slt_neq a b : slt a b -> a <> b.
Proof. intros H ->. exact (slt_irrefl _ H). Qed.

(** ** Grouped sums *)

Lemma sum_where_cons P f x l :
  sum_where P f (x :: l) = (if P (fst x) then f x else 0) + sum_where P f l.
Proof. unfold sum_where. simpl. destruct (P (fst x)); simpl; lia. Qed.

Lemma add_to_group_sum_dem P x gs :
  sum_where P kdem (add_to_group x gs) = sum_where P kdem (x :: gs).
Proof.
  induction gs as [| g gs IH]; simpl; [reflexivity |].
  destruct (String.compare (fst x) (fst g)) eqn:E.
  - apply compare_Eq_eq in E. rewrite !sum_where_cons. simpl. rewrite E.
    unfold kdem. simpl. destruct (P (fst g)); lia.
  - reflexivity.
  - rewrite sum_where_cons, IH, !sum_where_cons. lia.
Qed.

Lemma add_to_group_sum_rep P x gs :
  sum_where P krep (add_to_group x gs) = sum_where P krep (x :: gs).
Proof.
  induction gs as [| g gs IH]; simpl; [reflexivity |].
  destruct (String.compare (fst x) (fst g)) eqn:E.
  - apply compare_Eq_eq in E. rewrite !sum_where_cons. simpl. rewrite E.
    unfold krep. simpl. destruct (P (fst g)); lia.
  - reflexivity.
  - rewrite sum_where_cons, IH, !sum_where_cons. lia.
Qed.

Lemma groupby_sum_dem P rows :
  sum_where P kdem (groupby_sum rows) = sum_where P kdem rows.
Proof.
  induction rows as [| x rows IH]; [reflexivity |]. simpl.
  now rewrite add_to_group_sum_dem, !sum_where_cons, IH.
Qed.

Lemma groupby_sum_rep P rows :
  sum_where P krep (groupby_sum rows) = sum_where P krep rows.
Proof.
  induction rows as [| x rows IH]; [reflexivity |]. simpl.
  now rewrite add_to_group_sum_rep, !sum_where_cons, IH.
Qed.

Lemma add_to_group_keys x gs k :
  In k (map fst (add_to_group x gs)) <-> k = fst x \/ In k (map fst gs).
Proof.
  induction gs as [| g gs IH]; simpl; [intuition |].
  destruct (String.compare (fst x) (fst g)) eqn:E; simpl.
  - apply compare_Eq_eq in E. rewrite E. intuition.
  - intuition.
  - rewrite IH. intuition.
Qed.

Lemma groupby_sum_keys rows k :
  In k (map fst (groupby_sum rows)) <-> In k (map fst rows).
Proof.
  induction rows as [| x rows IH]; simpl; [reflexivity |].
  rewrite add_to_group_keys, IH. intuition.
Qed.

Lemma add_to_group_sorted x gs : keys_sorted gs -> keys_sorted (add_to_group x gs).
Proof.
  unfold keys_sorted. induction gs as [| g gs IH]; intros Hs; simpl.
  - repeat constructor.
  - inversion Hs as [| ? ? Hs' Hg]; subst.
    destruct (String.compare (fst x) (fst g)) eqn:E; simpl.
    + constructor; assumption.
    + constructor; [assumption |]. constructor; [exact E |].
      rewrite Forall_forall in *. intros k Hk. apply (slt_trans _ (fst g)); auto.
    + constructor; [now apply IH |].
      rewrite Forall_forall in *. intros k Hk. apply add_to_group_keys in Hk.
      destruct Hk as [-> | Hk]; [now apply compare_Gt_slt | now apply Hg].
Qed.

Lemma groupby_sum_sorted rows : keys_sorted (groupby_sum rows).
Proof.
  induction rows as [| x rows IH]; simpl; [constructor | now apply add_to_group_sorted].
Qed.

Lemma sum_where_above k f l :
  Forall (slt k) (map fst l) -> sum_where (String.eqb k) f l = 0.
Proof.
  induction l as [| x l IH]; intros H; [reflexivity |].
  inversion H; subst. rewrite sum_where_cons, IH by assumption.
  destruct (String.eqb_spec k (fst x)) as [E | _]; [| reflexivity].
  exfalso. apply (slt_neq k (fst x)); assumption.
Qed.

(** Two grouped tables with the same keys and the same sums are the same
    table. *)
Lemma keys_sorted_ext (l1 l2 : list keyed) :
  keys_sorted l1 -> keys_sorted l2 ->
  (forall k, In k (map fst l1) <-> In k (map fst l2)) ->
  (forall k, sum_where (String.eqb k) kdem l1 = sum_where (String.eqb k) kdem l2) ->
  (forall k, sum_where (String.eqb k) krep l1 = sum_where (String.eqb k) krep l2) ->
  l1 = l2.
Proof.
  unfold keys_sorted. revert l2.
  induction l1 as [| [k1 [d1 r1]] t1 IH]; intros [| [k2 [d2 r2]] t2] S1 S2 Hk Hd Hr.
  - reflexivity.
  - exfalso. apply (proj2 (Hk k2)). now left.
  - exfalso. apply (proj1 (Hk k1)). now left.
  - simpl in S1, S2. inversion S1 as [| ? ? S1' A1]; subst.
    inversion S2 as [| ? ? S2' A2]; subst.
    assert (Ek : k1 = k2).
    { destruct (proj1 (Hk k1) (or_introl eq_refl)) as [E | H1]; [now symmetry |].
      destruct (proj2 (Hk k2) (or_introl eq_refl)) as [E | H2]; [assumption |].
      rewrite Forall_forall in A1, A2.
      exfalso. exact (slt_asym _ _ (A1 _ H2) (A2 _ H1)). }
    subst k2.
    pose proof (Hd k1) as Hd1. pose proof (Hr k1) as Hr1.
    rewrite !sum_where_cons in Hd1, Hr1. simpl in Hd1, Hr1.
    rewrite String.eqb_refl in Hd1, Hr1.
    rewrite !sum_where_above in Hd1, Hr1 by assumption.
    unfold kdem, krep in Hd1, Hr1. simpl in Hd1, Hr1.
    assert (d1 = d2) by lia. assert (r1 = r2) by lia. subst d2 r2.
    f_equal. apply IH; try assumption.
    + intros k. rewrite Forall_forall in A1, A2. split; intros Hin.
      * destruct (proj1 (Hk k) (or_intror Hin)) as [E | H]; [| assumption].
        simpl in E. subst k. exfalso. exact (slt_irrefl _ (A1 _ Hin)).
      * destruct (proj2 (Hk k) (or_intror Hin)) as [E | H]; [| assumption].
        simpl in E. subst k. exfalso. exact (slt_irrefl _ (A2 _ Hin)).
    + intros k. specialize (Hd k). rewrite !sum_where_cons in Hd. simpl in Hd. lia.
    + intros k. specialize (Hr k). rewrite !sum_where_cons in Hr. simpl in Hr. lia.
Qed.

(** ** Tables: [block_table] and [aggregate] *)

Lemma filter_map_comm {A B : Type} (p : B -> bool) (f : A -> B) (l : list A) :
  filter p (map f l) = map f (filter (fun x => p (f x)) l).
Proof.
  induction l as [| x l IH]; simpl; [reflexivity |].
  destruct (p (f x)); simpl; now rewrite IH.
Qed.

Lemma StronglySorted_filter {A : Type} (R : A -> A -> Prop) (p : A -> bool) l :
  StronglySorted R l -> StronglySorted R (filter p l).
Proof.
  induction 1 as [| x l Hs IH Hx]; simpl; [constructor |].
  destruct (p x); [| assumption]. constructor; [assumption |].
  rewrite Forall_forall in *. intros y Hy. apply filter_In in Hy. now apply Hx.
Qed.

Lemma StronglySorted_map_filter {A : Type} (R : string -> string -> Prop)
  (f : A -> string) (p : A -> bool) l :
  StronglySorted R (map f l) -> StronglySorted R (map f (filter p l)).
Proof.
  induction l as [| x l IH]; simpl; intros H; [constructor |].
  inversion H as [| ? ? Hs Hx]; subst.
  destruct (p x); simpl; [| now apply IH]. constructor; [now apply IH |].
  rewrite Forall_forall in *. intros y Hy. apply Hx.
  apply in_map_iff in Hy. destruct Hy as [z [<- Hz]]. apply filter_In in Hz.
  apply in_map. tauto.
Qed.

Lemma insert_row_above x l :
  Forall (slt (geoid x)) (map geoid l) -> insert_row x l = x :: l.
Proof.
  destruct l as [| y l]; intros H; simpl; [reflexivity |].
  inversion H; subst.
  destruct (String.ltb (geoid y) (geoid x)) eqn:E; [| reflexivity].
  apply ltb_slt in E. exfalso. eapply slt_asym; eassumption.
Qed.

Lemma sort_values_sorted l : ids_sorted l -> sort_values l = l.
Proof.
  unfold ids_sorted. induction l as [| x l IH]; intros H; [reflexivity |].
  simpl in *. inversion H; subst. rewrite IH by assumption.
  now apply insert_row_above.
Qed.

Lemma map_geoid_with_tot l : map geoid (map with_tot l) = map fst l.
Proof. rewrite map_map. reflexivity. Qed.

Lemma block_table_eq n rows :
  block_table n rows = map with_tot (filter (live n) (groupby_sum (map by_block rows))).
Proof.
  unfold block_table. rewrite filter_map_comm. apply sort_values_sorted.
  unfold ids_sorted. rewrite map_geoid_with_tot.
  apply StronglySorted_map_filter, groupby_sum_sorted.
Qed.

Lemma aggregate_eq n blocks :
  aggregate n blocks = map with_tot (groupby_sum (map (by_prefix n) blocks)).
Proof.
  unfold aggregate. apply sort_values_sorted.
  unfold ids_sorted. rewrite map_geoid_with_tot. apply groupby_sum_sorted.
Qed.

Lemma block_table_sorted n rows : ids_sorted (block_table n rows).
Proof.
  rewrite block_table_eq. unfold ids_sorted. rewrite map_geoid_with_tot.
  apply StronglySorted_map_filter, groupby_sum_sorted.
Qed.

Lemma aggregate_sorted n blocks : ids_sorted (aggregate n blocks).
Proof.
  rewrite aggregate_eq. unfold ids_sorted. rewrite map_geoid_with_tot.
  apply groupby_sum_sorted.
Qed.

Lemma with_tot_total l : Forall (fun o => tot o = dem o + rep o) (map with_tot l).
Proof. apply Forall_forall. intros o Ho. apply in_map_iff in Ho. now destruct Ho as [g [<- _]]. Qed.

Lemma block_table_total n rows :
  Forall (fun o => tot o = dem o + rep o) (block_table n rows).
Proof. rewrite block_table_eq. apply with_tot_total. Qed.

Lemma aggregate_total n blocks :
  Forall (fun o => tot o = dem o + rep o) (aggregate n blocks).
Proof. rewrite aggregate_eq. apply with_tot_total. Qed.

(** In a grouped table each row holds the sum of its key. *)
Lemma keys_sorted_lookup f l x :
  keys_sorted l -> In x l -> f x = sum_where (String.eqb (fst x)) f l.
Proof.
  unfold keys_sorted. induction l as [| y l IH]; intros Hs Hx; [contradiction |].
  simpl in Hs. inversion Hs as [| ? ? Hs' Hy]; subst. rewrite sum_where_cons.
  destruct Hx as [-> | Hx].
  - rewrite String.eqb_refl, sum_where_above by assumption. lia.
  - rewrite <- IH by assumption.
    destruct (String.eqb_spec (fst x) (fst y)) as [E | _]; [| lia].
    exfalso. rewrite Forall_forall in Hy.
    apply (slt_irrefl (fst y)). rewrite <- E at 2. apply Hy. now apply in_map.
Qed.

Lemma by_prefix_with_tot n l :
  map (by_prefix n) (map with_tot l) = map (on_prefix n) l.
Proof.
  rewrite map_map. apply map_ext. intros [k [d r]]. reflexivity.
Qed.

Lemma sum_where_map_filter (p : string -> bool) (h : string -> string) P f l :
  (forall g, f (h (fst g), snd g) = f g) ->
  sum_where P f (map (fun g => (h (fst g), snd g)) (filter (fun g => p (fst g)) l)) =
  sum_where (fun k => p k && P (h k)) f l.
Proof.
  intros Hf. induction l as [| g l IH]; [reflexivity |].
  simpl. rewrite (sum_where_cons (fun k => p k && P (h k))).
  destruct (p (fst g)); simpl; [| exact IH].
  rewrite sum_where_cons. simpl. rewrite IH, Hf. reflexivity.
Qed.

Lemma keys_map_filter (p : string -> bool) (h : string -> string) (l : list keyed) t :
  In t (map fst (map (fun g => (h (fst g), snd g)) (filter (fun g => p (fst g)) l))) <->
  exists k, In k (map fst l) /\ p k = true /\ h k = t.
Proof.
  rewrite map_map. simpl. rewrite in_map_iff. split.
  - intros [g [E Hg]]. apply filter_In in Hg. exists (fst g).
    split; [apply in_map; tauto | tauto].
  - intros [k [Hk [Hp E]]]. apply in_map_iff in Hk. destruct Hk as [g [<- Hg]].
    exists g. split; [assumption |]. apply filter_In. tauto.
Qed.

(** Grouping commutes with a first grouping on a finer key. *)
Lemma regroup_eq (p : string -> bool) (h : string -> string) (K : list keyed) :
  groupby_sum (map (fun g => (h (fst g), snd g)) (filter (fun g => p (fst g)) (groupby_sum K))) =
  groupby_sum (map (fun g => (h (fst g), snd g)) (filter (fun g => p (fst g)) K)).
Proof.
  apply keys_sorted_ext; try apply groupby_sum_sorted.
  - intros t. rewrite !groupby_sum_keys, !keys_map_filter.
    split; intros [k [Hk H]]; exists k; (split; [| exact H]);
      now apply groupby_sum_keys.
  - intros t. rewrite !groupby_sum_dem, !sum_where_map_filter by reflexivity.
    apply groupby_sum_dem.
  - intros t. rewrite !groupby_sum_rep, !sum_where_map_filter by reflexivity.
    apply groupby_sum_rep.
Qed.

(** ** Finite cells *)

Lemma is_fin_Fin x : is_fin x = true -> x = Fin (fin_value x).
Proof. destruct x; simpl; congruence. Qed.

Lemma all_fin_map vs :
  Forall (fun x => is_fin x = true) vs -> vs = map Fin (map fin_value vs).
Proof.
  induction 1 as [| x vs Hx _ IH]; simpl; [reflexivity |].
  now rewrite <- IH, <- is_fin_Fin.
Qed.

Lemma replace_inf_present x : isna (replace_inf x) = false -> is_fin x = true /\ replace_inf x = x.
Proof. destruct x; simpl; intros H; try discriminate; auto. Qed.


(** ** [transform] *)

Section Transform.

Variable col : raw_row -> float64.
Variable all : list raw_row.
Hypothesis col_finite : Forall (fun r => is_fin (col r) = true) all.

Lemma group_finite k :
  exists out, hamilton_floor (map col (filter (same_key k) all)) = Ok out.
Proof.
  assert (H : Forall (fun x => is_fin x = true) (map col (filter (same_key k) all))).
  { apply Forall_forall. intros x Hx. apply in_map_iff in Hx.
    destruct Hx as [r [<- Hr]]. apply filter_In in Hr.
    rewrite Forall_forall in col_finite. now apply col_finite. }
  rewrite (all_fin_map _ H). eexists. apply hamilton_floor_finite.
Qed.

Lemma transform_from_total rest seen :
  exists zs, transform_from col all seen rest = Ok zs /\ length zs = length rest.
Proof.
  revert seen. induction rest as [| r rest IH]; intros seen; simpl.
  - now exists [].
  - destruct (group_finite (r_key r)) as [out ->]. simpl.
    destruct (IH (seen ++ [r])) as [zs [-> L]]. simpl.
    eexists. split; [reflexivity |]. simpl. now rewrite L.
Qed.

Lemma transform_total :
  exists zs, transform col all = Ok zs /\ length zs = length all.
Proof. apply transform_from_total. Qed.

End Transform.




(** ** Proportional allocation: which rows survive *)







Lemma merge_left_inv conv votes m :
  In m (merge_left conv votes) -> inputs_present m = true ->
  exists c v, In c conv /\ In v votes /\ matches c v = true /\
    m = {| m_conv := c; m_dem := of_int (v_dem v); m_rep := of_int (v_rep v) |}.
Proof.
  unfold merge_left. intros Hm Hp. apply in_flat_map in Hm.
  destruct Hm as [c [Hc Hm]]. exists c.
  destruct (filter (matches c) votes) as [| v0 vs] eqn:E.
  - destruct Hm as [<- | []]. unfold inputs_present in Hp. simpl in Hp.
    rewrite !orb_true_r in Hp. discriminate.
  - apply in_map_iff in Hm. destruct Hm as [v [<- Hv]]. exists v.
    rewrite <- E in Hv. apply filter_In in Hv. tauto.
Qed.

(** Every surviving row comes from a conversion row with a matching vote
    record, a positive total registration and finite raw allocations. *)
Lemma allocate_raw_inv self r :
  In r (allocate_raw self) ->
  exists c v,
    In c (conversion_df self) /\ In v (election_df self) /\ matches c v = true /\
    r_key r = SRPREC_KEY c /\ r_block r = BLOCK_KEY c /\
    fgt0 (SRTOTREG c) = true /\
    dem_raw r = raw_allocation (of_int (v_dem v)) c /\
    rep_raw r = raw_allocation (of_int (v_rep v)) c /\
    is_fin (dem_raw r) = true /\ is_fin (rep_raw r) = true.
Proof.
  unfold allocate_raw. intros H.
  apply filter_In in H. destruct H as [H Hraw].
  apply in_map_iff in H. destruct H as [r1 [<- H]].
  apply in_map_iff in H. destruct H as [m [<- H]].
  apply filter_In in H. destruct H as [H Hpos].
  apply filter_In in H. destruct H as [H Hin].
  destruct (merge_left_inv _ _ _ H Hin) as [c [v [Hc [Hv [Hm ->]]]]].
  exists c, v. unfold positive_total in Hpos. simpl in Hpos.
  unfold raw_present in Hraw. simpl in Hraw.
  apply negb_true_iff, orb_false_iff in Hraw. destruct Hraw as [Hd Hr].
  apply replace_inf_present in Hd, Hr. destruct Hd as [Fd Ed], Hr as [Fr Er].
  unfold r_key, r_block. simpl. rewrite Ed, Er. repeat split; assumption.
Qed.

Lemma allocate_raw_fin_dem self :
  Forall (fun r => is_fin (dem_raw r) = true) (allocate_raw self).
Proof.
  apply Forall_forall. intros r Hr.
  destruct (allocate_raw_inv self r Hr) as (c & v & H). tauto.
Qed.

Lemma allocate_raw_fin_rep self :
  Forall (fun r => is_fin (rep_raw r) = true) (allocate_raw self).
Proof.
  apply Forall_forall. intros r Hr.
  destruct (allocate_raw_inv self r Hr) as (c & v & H). tauto.
Qed.

(** ** [apportion] returns *)

Lemma apportion_ok merged :
  Forall (fun r => is_fin (dem_raw r) = true) merged ->
  Forall (fun r => is_fin (rep_raw r) = true) merged ->
  exists dems reps,
    transform dem_raw merged = Ok dems /\ transform rep_raw merged = Ok reps /\
    length dems = length merged /\ length reps = length merged /\
    apportion merged = Ok (map to_alloc (combine (combine merged dems) reps)).
Proof.
  intros Hd Hr.
  destruct (transform_total dem_raw merged Hd) as [dems [Ed Ld]].
  destruct (transform_total rep_raw merged Hr) as [reps [Er Lr]].
  exists dems, reps. repeat split; try assumption.
  unfold apportion. rewrite Ed, Er. reflexivity.
Qed.

Lemma apportion_total self :
  exists rows, apportion (allocate_raw self) = Ok rows.
Proof.
  destruct (apportion_ok _ (allocate_raw_fin_dem self) (allocate_raw_fin_rep self))
    as (dems & reps & _ & _ & _ & _ & H).
  eexists. exact H.
Qed.

(** ** Levels *)

Lemma slt_sorted_NoDup l : StronglySorted slt l -> NoDup l.
Proof.
  induction 1 as [| x l Hs IH Hx]; constructor; [| assumption].
  intros Hin. rewrite Forall_forall in Hx. exact (slt_irrefl x (Hx x Hin)).
Qed.

Lemma str_prefix_is_prefix n s : String.prefix (str_prefix n s) s = true.
Proof.
  unfold str_prefix. revert n. induction s as [| c s IH]; intros [| n]; simpl; try reflexivity.
  destruct (Ascii.ascii_dec c c); [apply IH | contradiction].
Qed.

Lemma str_prefix_length n s :
  String.length (str_prefix n s) = Nat.min n (String.length s).
Proof.
  unfold str_prefix. revert n. induction s as [| c s IH]; intros [| n]; simpl; try reflexivity.
  now rewrite IH.
Qed.

Lemma sum_where_by_prefix n (k : string) blocks :
  sum_where (String.eqb k) kdem (map (by_prefix n) blocks) =
    Zsum (map dem (filter (fun b => (k =? str_prefix n (geoid b))%string) blocks)) /\
  sum_where (String.eqb k) krep (map (by_prefix n) blocks) =
    Zsum (map rep (filter (fun b => (k =? str_prefix n (geoid b))%string) blocks)).
Proof.
  unfold sum_where. rewrite filter_map_comm, !map_map. split; reflexivity.
Qed.

Lemma aggregate_grouped_by n blocks :
  grouped_by (str_prefix n) blocks (aggregate n blocks).
Proof.
  rewrite aggregate_eq. set (K := map (by_prefix n) blocks).
  pose proof (groupby_sum_sorted K) as Hs. repeat split.
  - rewrite map_geoid_with_tot, groupby_sum_keys. unfold K. rewrite map_map.
    intros H. apply in_map_iff in H. destruct H as [b [E Hb]]. now exists b.
  - rewrite map_geoid_with_tot, groupby_sum_keys. unfold K. rewrite map_map.
    intros [b [Hb E]]. apply in_map_iff. now exists b.
  - apply in_map_iff in H. destruct H as [g [<- Hg]]. simpl.
    change (fst (snd g)) with (kdem g).
    rewrite (keys_sorted_lookup kdem _ _ Hs Hg), groupby_sum_dem.
    apply sum_where_by_prefix.
  - apply in_map_iff in H. destruct H as [g [<- Hg]]. simpl.
    change (snd (snd g)) with (krep g).
    rewrite (keys_sorted_lookup krep _ _ Hs Hg), groupby_sum_rep.
    apply sum_where_by_prefix.
  - rewrite map_geoid_with_tot. now apply slt_sorted_NoDup.
Qed.

(** The dispatch of each entry point, once the apportioned rows are known. *)
Section Dispatch.

Variable self : frames.
Variable rows : list alloc_row.
Hypothesis Hrows : apportion (allocate_raw self) = Ok rows.

Lemma rollup_block : Blockify.rollup self "block" = Ok (block_table 12 rows).
Proof. unfold Blockify.rollup. now rewrite Hrows. Qed.

Lemma rollup_blockgroup :
  Blockify.rollup self "blockgroup" = Ok (aggregate 12 (block_table 12 rows)).
Proof. unfold Blockify.rollup. now rewrite Hrows. Qed.

Lemma rollup_tract :
  Blockify.rollup self "tract" = Ok (aggregate 11 (block_table 12 rows)).
Proof. unfold Blockify.rollup. now rewrite Hrows. Qed.

Lemma rollup_county :
  Blockify.rollup self "county" = Ok (aggregate 5 (block_table 12 rows)).
Proof. unfold Blockify.rollup. now rewrite Hrows. Qed.

Lemma rollup_other level :
  recognized level = false -> Blockify.rollup self level = Raise ValueError.
Proof.
  unfold recognized, Blockify.rollup. rewrite Hrows. simpl. intros H.
  apply orb_false_iff in H. destruct H as [H ->].
  apply orb_false_iff in H. destruct H as [H ->].
  apply orb_false_iff in H. destruct H as [-> ->]. reflexivity.
Qed.

Lemma graphify_as_rollup level :
  Graphify.blockify self level = Blockify.rollup self level.
Proof. reflexivity. Qed.

Lemma cultivate_blockgroup :
  Cultivate.blockify self "blockgroup" = Ok (aggregate 11 (block_table 11 rows)).
Proof. unfold Cultivate.blockify. now rewrite Hrows. Qed.

Lemma cultivate_other level :
  (level =? "blockgroup")%string = false ->
  Cultivate.blockify self level = Raise ValueError.
Proof. unfold Cultivate.blockify. rewrite Hrows. simpl. now intros ->. Qed.

End Dispatch.

Lemma recognized_cases level :
  recognized level = true ->
  level = "block"%string \/ level = "blockgroup"%string \/
  level = "tract"%string \/ level = "county"%string.
Proof.
  unfold recognized. rewrite !orb_true_iff, !String.eqb_eq. tauto.
Qed.

(** ** C5: the level dispatch *)



(** ** C9: order of the returned table and its total column *)

(** C9: whatever table an entry point returns is in strictly ascending
    order of its identifier column, and the total of every row is the sum of
    its two counts. *)
Theorem output_sorted_total (self : frames) (level : string) (out : list out_row)
  (Hout : Blockify.rollup self level = Ok out \/
          Graphify.blockify self level = Ok out \/
          Cultivate.blockify self level = Ok out) :
  StronglySorted slt (map geoid out) /\
  Forall (fun o => tot o = dem o + rep o) out.
Proof.
  destruct (apportion_total self) as [rows Hrows].
  change (Graphify.blockify self level) with (Blockify.rollup self level) in Hout.
  assert (H : (exists n m, out = aggregate n (block_table m rows)) \/
              (exists m, out = block_table m rows)).
  { destruct Hout as [H | [H | H]].
    - destruct (recognized level) eqn:E.
      + destruct (recognized_cases level E) as [-> | [-> | [-> | ->]]].
        * rewrite (rollup_block self rows Hrows) in H. injection H as <-. right. eauto.
        * rewrite (rollup_blockgroup self rows Hrows) in H. injection H as <-. left. eauto.
        * rewrite (rollup_tract self rows Hrows) in H. injection H as <-. left. eauto.
        * rewrite (rollup_county self rows Hrows) in H. injection H as <-. left. eauto.
      + rewrite (rollup_other self rows Hrows level E) in H. discriminate.
    - destruct (recognized level) eqn:E.
      + destruct (recognized_cases level E) as [-> | [-> | [-> | ->]]].
        * rewrite (rollup_block self rows Hrows) in H. injection H as <-. right. eauto.
        * rewrite (rollup_blockgroup self rows Hrows) in H. injection H as <-. left. eauto.
        * rewrite (rollup_tract self rows Hrows) in H. injection H as <-. left. eauto.
        * rewrite (rollup_county self rows Hrows) in H. injection H as <-. left. eauto.
      + rewrite (rollup_other self rows Hrows level E) in H. discriminate.
    - destruct (String.eqb_spec level "blockgroup") as [-> | NE].
      + rewrite (cultivate_blockgroup self rows Hrows) in H. injection H as <-. left. eauto.
      + apply String.eqb_neq in NE.
        rewrite (cultivate_other self rows Hrows level NE) in H. discriminate. }
  destruct H as [[n [m ->]] | [m ->]].
  - split; [apply aggregate_sorted | apply aggregate_total].
  - split; [apply block_table_sorted | apply block_table_total].
Qed.

Lemma output_sorted_total_witness :
  StronglySorted slt
    (map geoid [ {| geoid := "060010001001001"; tot := 5; dem := 3; rep := 2 |};
                 {| geoid := "060010001002001"; tot := 10; dem := 7; rep := 3 |} ]) /\
  Forall (fun o => tot o = dem o + rep o)
    [ {| geoid := "060010001001001"; tot := 5; dem := 3; rep := 2 |};
      {| geoid := "060010001002001"; tot := 10; dem := 7; rep := 3 |} ].
Proof.
  apply (output_sorted_total spec_example "block").
  left. vm_compute. reflexivity.
Defined.

(** ** Aggregation straight from the apportioned rows *)




Lemma aggregate_on m n rows :
  aggregate n (block_table m rows) = table_on m (str_prefix n) rows.
Proof.
  rewrite aggregate_eq, block_table_eq, by_prefix_with_tot. unfold table_on. f_equal.
  apply (regroup_eq (not_sentinel m) (str_prefix n)).
Qed.

Lemma direct_aggregate_on m n rows :
  direct_aggregate m n rows = table_on m (str_prefix n) rows.
Proof.
  unfold direct_aggregate, table_on. f_equal. f_equal.
  unfold live. rewrite filter_map_comm, map_map. reflexivity.
Qed.


(** ** C3: the prefix of each level *)

(** C3, as written, fails for [Cultivate.blockify]: level "blockgroup" cuts
    a 15-character identifier to 11 characters, not 12, and the levels
    "block", "tract" and "county" raise. *)
Lemma prefix_truncation_counterexample :
  Cultivate.blockify one_block "blockgroup" =
    Ok [ {| geoid := "36001000101"; tot := 15; dem := 10; rep := 5 |} ] /\
  str_prefix 12 "360010001011001" = "360010001011"%string /\
  Cultivate.blockify one_block "block" = Raise ValueError /\
  Cultivate.blockify one_block "tract" = Raise ValueError /\
  Cultivate.blockify one_block "county" = Raise ValueError.
Proof. repeat split; vm_compute; reflexivity. Qed.

(** C3, amended: in [Blockify.rollup] and [Graphify.blockify] level "block"
    returns the block table with its identifiers unchanged, and levels
    "blockgroup", "tract" and "county" group the rows of that table on the
    first 12, 11 and 5 characters of the identifier; [Cultivate.blockify]
    accepts only "blockgroup" and groups its block table on the first 11
    characters. *)
Theorem prefix_truncation (self : frames) :
  exists rows blocks,
    apportion (allocate_raw self) = Ok rows /\
    Blockify.rollup self "block" = Ok blocks /\
    Graphify.blockify self "block" = Ok blocks /\
    groups_on 12 blocks (Blockify.rollup self "blockgroup") /\
    groups_on 11 blocks (Blockify.rollup self "tract") /\
    groups_on 5 blocks (Blockify.rollup self "county") /\
    groups_on 12 blocks (Graphify.blockify self "blockgroup") /\
    groups_on 11 blocks (Graphify.blockify self "tract") /\
    groups_on 5 blocks (Graphify.blockify self "county") /\
    groups_on 11 (block_table 11 rows) (Cultivate.blockify self "blockgroup") /\
    (forall n k, String.prefix (str_prefix n k) k = true /\
                 String.length (str_prefix n k) = Nat.min n (String.length k)).
Proof.
  destruct (apportion_total self) as [rows Hrows].
  exists rows, (block_table 12 rows).
  change (Graphify.blockify self) with (Blockify.rollup self).
  rewrite (rollup_block self rows Hrows), (rollup_blockgroup self rows Hrows),
    (rollup_tract self rows Hrows), (rollup_county self rows Hrows),
    (cultivate_blockgroup self rows Hrows).
  unfold groups_on.
  repeat (split; [first [ assumption | reflexivity
                        | eexists; split; [reflexivity | apply aggregate_grouped_by] ] |]).
  intros n k. split; [apply str_prefix_is_prefix | apply str_prefix_length].
Qed.

(** ** C8: regrouping the block table *)

(** C8: for the levels "blockgroup", "tract" and "county" the table that
    [Blockify.rollup] and [Graphify.blockify] return is the block-level
    table regrouped on the prefix of the level, and it is the table obtained
    by aggregating the apportioned rows to that prefix directly. *)
Theorem aggregation_idempotent (self : frames) :
  exists rows blocks,
    apportion (allocate_raw self) = Ok rows /\
    Blockify.rollup self "block" = Ok blocks /\
    Graphify.blockify self "block" = Ok blocks /\
    Blockify.rollup self "blockgroup" = Ok (aggregate 12 blocks) /\
    Blockify.rollup self "tract" = Ok (aggregate 11 blocks) /\
    Blockify.rollup self "county" = Ok (aggregate 5 blocks) /\
    Graphify.blockify self "blockgroup" = Ok (aggregate 12 blocks) /\
    Graphify.blockify self "tract" = Ok (aggregate 11 blocks) /\
    Graphify.blockify self "county" = Ok (aggregate 5 blocks) /\
    aggregate 12 blocks = direct_aggregate 12 12 rows /\
    aggregate 11 blocks = direct_aggregate 12 11 rows /\
    aggregate 5 blocks = direct_aggregate 12 5 rows.
Proof.
  destruct (apportion_total self) as [rows Hrows].
  exists rows, (block_table 12 rows).
  change (Graphify.blockify self) with (Blockify.rollup self).
  rewrite (rollup_block self rows Hrows), (rollup_blockgroup self rows Hrows),
    (rollup_tract self rows Hrows), (rollup_county self rows Hrows).
  rewrite !aggregate_on, !direct_aggregate_on.
  repeat split; assumption.
Qed.

(** ** C4: water-only blocks *)



(** ** C10: what [hamilton_floor] is called on *)





(** ** C7: rows dropped for data quality *)




Lemma entry_points_ext self self' level :
  allocate_raw self = allocate_raw self' ->
  Blockify.rollup self level = Blockify.rollup self' level /\
  Graphify.blockify self level = Graphify.blockify self' level /\
  Cultivate.blockify self level = Cultivate.blockify self' level.
Proof.
  intros E. unfold Blockify.rollup, Graphify.blockify, Cultivate.blockify.
  now rewrite E.
Qed.

Lemma rollup_returns self level :
  recognized level = true -> exists out, Blockify.rollup self level = Ok out.
Proof.
  intros E. destruct (apportion_total self) as [rows Hrows].
  destruct (recognized_cases level E) as [-> | [-> | [-> | ->]]]; eexists;
    first [ apply (rollup_block self rows Hrows)
          | apply (rollup_blockgroup self rows Hrows)
          | apply (rollup_tract self rows Hrows)
          | apply (rollup_county self rows Hrows) ].
Qed.



(** ** C1: conservation *)


Section Precinct.

Variable votes : list vote_row.
Variable p : string.
Variable v : vote_row.
Hypothesis Hvote : filter (fun v' => (v_SRPREC_KEY v' =? p)%string) votes = [v].



End Precinct.






(** * Further properties of the code *)

(** ** [hamilton_floor]: when it raises, what it fixes, how far it moves *)









(** ** Returned tables: signs, totals, empty inputs, unused vote records *)








Lemma combine_Forall_fst {A B : Type} (P : A -> Prop) (l : list A) (l' : list B) :
  Forall P l -> Forall (fun x => P (fst x)) (combine l l').
Proof.
  intros H. apply Forall_forall. intros [a b] Hin. apply in_combine_l in Hin.
  rewrite Forall_forall in H. now apply H.
Qed.

Lemma combine_Forall_snd {A B : Type} (P : B -> Prop) (l : list A) (l' : list B) :
  Forall P l' -> Forall (fun x => P (snd x)) (combine l l').
Proof.
  intros H. apply Forall_forall. intros [a b] Hin. apply in_combine_r in Hin.
  rewrite Forall_forall in H. now apply H.
Qed.











Lemma merge_left_no_votes conv :
  filter inputs_present (merge_left conv []) = [].
Proof.
  induction conv as [| c conv IH]; [reflexivity |].
  unfold merge_left in *. simpl. unfold inputs_present at 1. simpl.
  rewrite !orb_true_r. simpl. exact IH.
Qed.

Lemma allocate_raw_empty self :
  election_df self = [] \/ conversion_df self = [] -> allocate_raw self = [].
Proof.
  unfold allocate_raw. intros [E | E]; rewrite E.
  - now rewrite merge_left_no_votes.
  - reflexivity.
Qed.

(** X6: with an empty vote table or an empty conversion table every entry
    point returns the empty table on each level it accepts, without
    raising. *)
Theorem empty_tables (self : frames) (level : string)
  (Hempty : election_df self = [] \/ conversion_df self = [])
  (Hlevel : recognized level = true) :
  Blockify.rollup self level = Ok [] /\
  Graphify.blockify self level = Ok [] /\
  Cultivate.blockify self "blockgroup" = Ok [].
Proof.
  pose proof (allocate_raw_empty self Hempty) as E.
  unfold Blockify.rollup, Graphify.blockify, Cultivate.blockify. rewrite E.
  destruct (recognized_cases level Hlevel) as [-> | [-> | [-> | ->]]];
    repeat split; reflexivity.
Qed.

Lemma empty_tables_witness :
  Blockify.rollup (on_votes [] (conversion_df spec_example)) "county" = Ok [] /\
  Graphify.blockify (on_votes [] (conversion_df spec_example)) "county" = Ok [] /\
  Cultivate.blockify (on_votes [] (conversion_df spec_example)) "blockgroup" = Ok [].
Proof.
  apply (empty_tables (on_votes [] (conversion_df spec_example)) "county").
  - left. reflexivity.
  - reflexivity.
Defined.

Lemma filter_filter_implied {A : Type} (p q : A -> bool) (l : list A) :
  (forall x, p x = true -> q x = true) ->
  filter p (filter q l) = filter p l.
Proof.
  intros H. induction l as [| x l IH]; simpl; [reflexivity |].
  destruct (q x) eqn:Eq; simpl.
  - destruct (p x); now rewrite IH.
  - destruct (p x) eqn:Ep; [| exact IH]. apply H in Ep. congruence.
Qed.

Lemma merge_left_referenced conv0 conv votes :
  incl conv conv0 ->
  merge_left conv (filter (referenced conv0) votes) = merge_left conv votes.
Proof.
  intros Hincl. unfold merge_left. induction conv as [| c conv IH]; [reflexivity |].
  cbn [flat_map]. f_equal.
  - rewrite filter_filter_implied; [reflexivity |].
    intros v Hv. unfold referenced. apply existsb_exists. exists c.
    split; [apply Hincl; now left | assumption].
  - apply IH. intros x Hx. apply Hincl. now right.
Qed.

(** X7: the vote records of a precinct that no conversion row refers to
    take no part in any result: every entry point returns the same with
    those records removed from the vote table, so their votes are left out
    of every table without an error. *)
Theorem unreferenced_votes_ignored (self : frames) (level : string) :
  let used := on_votes (filter (referenced (conversion_df self)) (election_df self))
                       (conversion_df self) in
  Blockify.rollup self level = Blockify.rollup used level /\
  Graphify.blockify self level = Graphify.blockify used level /\
  Cultivate.blockify self level = Cultivate.blockify used level.
Proof.
  intros used. apply entry_points_ext. unfold allocate_raw, used. simpl.
  now rewrite (merge_left_referenced (conversion_df self)) by apply incl_refl.
Qed.

(** ** Conservation over the whole table *)









Example merge_population_example :
  merge_population_and_geometry unit_lib two_shapes three_blocks =
  [ {| p_GEOID20 := "060010001001"; p_geometry := tt; FIPS := "06001";
       pop_total := Fin (29 # 2) |};
    {| p_GEOID20 := "060010001002"; p_geometry := tt; FIPS := "06001";
       pop_total := Fin 0 |} ].
Proof. vm_compute. reflexivity. Qed.

(** * Population, geometry and the graph *)

(** ** Sorting on a key *)

Lemma sle_cases a b : sle a b <-> a = b \/ slt a b.
Proof.
  unfold sle, slt. rewrite (String.compare_antisym b a).
  destruct (String.compare a b) eqn:E; simpl.
  - apply compare_Eq_eq in E. split; [now left | discriminate].
  - split; [now right | discriminate].
  - split; [congruence |]. intros [-> | H]; [| discriminate].
    exfalso. apply compare_Gt_slt in E. exact (slt_irrefl _ E).
Qed.

Lemma sle_refl a : sle a a.
Proof. apply sle_cases. now left. Qed.

Lemma sle_trans a b c : sle a b -> sle b c -> sle a c.
Proof.
  rewrite !sle_cases. intros [-> | H1] [-> | H2]; auto.
  right. now apply (slt_trans a b c).
Qed.

Lemma ltb_false_sle a b : String.ltb a b = false -> sle b a.
Proof.
  unfold String.ltb, sle. destruct (String.compare a b); congruence.
Qed.

Lemma slt_sle a b : slt a b -> sle a b.
Proof. intros H. apply sle_cases. now right. Qed.

Lemma insert_on_perm {A : Type} (key : A -> string) x l :
  Permutation (insert_on key x l) (x :: l).
Proof.
  induction l as [| y l IH]; simpl; [reflexivity |].
  destruct (String.ltb (key y) (key x)); [| reflexivity].
  rewrite IH. apply perm_swap.
Qed.

Lemma sort_on_perm {A : Type} (key : A -> string) l : Permutation (sort_on key l) l.
Proof.
  induction l as [| x l IH]; simpl; [reflexivity |].
  rewrite insert_on_perm. now constructor.
Qed.

Lemma insert_on_ascending {A : Type} (key : A -> string) x l :
  ascending key l -> ascending key (insert_on key x l).
Proof.
  unfold ascending. induction l as [| y l IH]; intros Hs; simpl.
  - repeat constructor.
  - inversion Hs as [| ? ? Hs' Hy]; subst.
    destruct (String.ltb (key y) (key x)) eqn:E.
    + constructor; [now apply IH |].
      apply (Permutation_Forall (Permutation_sym (insert_on_perm key x l))).
      constructor; [| assumption]. apply slt_sle. now apply ltb_slt.
    + apply ltb_false_sle in E. constructor; [assumption |].
      constructor; [assumption |].
      rewrite Forall_forall in *. intros z Hz.
      apply (sle_trans _ (key y)); auto.
Qed.

Lemma sort_on_ascending {A : Type} (key : A -> string) l : ascending key (sort_on key l).
Proof.
  induction l as [| x l IH]; simpl; [constructor | now apply insert_on_ascending].
Qed.

(** ** Population by block group *)

Lemma add_to_pop_keys x gs k :
  In k (map fst (add_to_pop x gs)) <-> k = fst x \/ In k (map fst gs).
Proof.
  induction gs as [| g gs IH]; simpl; [intuition |].
  destruct (String.compare (fst x) (fst g)) eqn:E; simpl.
  - apply compare_Eq_eq in E. rewrite E. intuition.
  - intuition.
  - rewrite IH. intuition.
Qed.

Lemma add_to_pop_sorted x gs : pop_keys_sorted gs -> pop_keys_sorted (add_to_pop x gs).
Proof.
  unfold pop_keys_sorted. induction gs as [| g gs IH]; intros Hs; simpl.
  - repeat constructor.
  - inversion Hs as [| ? ? Hs' Hg]; subst.
    destruct (String.compare (fst x) (fst g)) eqn:E; simpl.
    + constructor; assumption.
    + constructor; [assumption |]. constructor; [exact E |].
      rewrite Forall_forall in *. intros k Hk. apply (slt_trans _ (fst g)); auto.
    + constructor; [now apply IH |].
      rewrite Forall_forall in *. intros k Hk. apply add_to_pop_keys in Hk.
      destruct Hk as [-> | Hk]; [now apply compare_Gt_slt | now apply Hg].
Qed.

Lemma groupby_pop_keys rows k :
  In k (map fst (groupby_pop rows)) <-> In k (map fst rows).
Proof.
  induction rows as [| x rows IH]; simpl; [reflexivity |].
  rewrite add_to_pop_keys, IH. intuition.
Qed.

Lemma groupby_pop_sorted rows : pop_keys_sorted (groupby_pop rows).
Proof.
  induction rows as [| x rows IH]; simpl; [constructor | now apply add_to_pop_sorted].
Qed.

(** What a group of [add_to_pop x gs] holds. *)
Lemma add_to_pop_In x gs g' :
  pop_keys_sorted gs -> In g' (add_to_pop x gs) ->
  (fst g' = fst x /\
   ((~ In (fst x) (map fst gs) /\ snd g' = nanadd (Fin 0) (snd x)) \/
    (exists g, In g gs /\ fst g = fst x /\ snd g' = nanadd (snd g) (snd x)))) \/
  (In g' gs /\ fst g' <> fst x).
Proof.
  unfold pop_keys_sorted. induction gs as [| g gs IH]; intros Hs Hin; simpl in *.
  - destruct Hin as [<- | []]. left. simpl. split; [reflexivity |]. left. auto.
  - inversion Hs as [| ? ? Hs' Hg]; subst. rewrite Forall_forall in Hg.
    destruct (String.compare (fst x) (fst g)) eqn:E.
    + apply compare_Eq_eq in E. destruct Hin as [<- | Hin].
      * left. simpl. split; [now symmetry |]. right. exists g. auto.
      * right. split; [now right |]. rewrite E. intros E'.
        apply (slt_irrefl (fst g)). rewrite <- E' at 2. apply Hg. now apply in_map.
    + destruct Hin as [<- | Hin].
      * left. simpl. split; [reflexivity |]. left. split; [| reflexivity].
        intros [E' | Hk].
        -- rewrite E' in E. exact (slt_irrefl _ E).
        -- exact (slt_asym _ _ E (Hg _ Hk)).
      * right. split; [exact Hin |]. intros E'. destruct Hin as [<- | Hin].
        -- rewrite E' in E. exact (slt_irrefl _ E).
        -- apply (slt_asym _ _ E). rewrite <- E'. apply Hg. now apply in_map.
    + apply compare_Gt_slt in E. destruct Hin as [<- | Hin].
      * right. split; [now left |]. intros E'. rewrite E' in E. exact (slt_irrefl _ E).
      * destruct (IH Hs' Hin) as [[Ek [[Hn Ev] | [g0 [H0 [E0 Ev]]]]] | [H1 H2]].
        -- left. split; [exact Ek |]. left. split; [| exact Ev].
           intros [E' | Hk]; [| contradiction].
           rewrite E' in E. exact (slt_irrefl _ E).
        -- left. split; [exact Ek |]. right. exists g0. auto.
        -- right. auto.
Qed.

Lemma key_sum_cons k x rows :
  key_sum k (x :: rows) =
  if (fst x =? k)%string then nanadd (key_sum k rows) (snd x) else key_sum k rows.
Proof. unfold key_sum. simpl. destruct (fst x =? k)%string; reflexivity. Qed.

Lemma key_sum_absent k rows : ~ In k (map fst rows) -> key_sum k rows = Fin 0.
Proof.
  induction rows as [| r rows IH]; intros H; [reflexivity |].
  rewrite key_sum_cons. simpl in H.
  destruct (String.eqb_spec (fst r) k) as [E | _]; [exfalso; apply H; now left |].
  apply IH. tauto.
Qed.

(** Each group holds the sum, NaN skipped, of the rows of its key. *)
Lemma groupby_pop_lookup rows g :
  In g (groupby_pop rows) -> snd g = key_sum (fst g) rows.
Proof.
  revert g. induction rows as [| x rows IH]; intros g Hin; [contradiction |].
  simpl in Hin. rewrite key_sum_cons.
  destruct (add_to_pop_In x _ g (groupby_pop_sorted rows) Hin)
    as [[Ek [[Hn Ev] | [g0 [H0 [E0 Ev]]]]] | [H1 H2]].
  - rewrite Ek, String.eqb_refl, Ev. rewrite key_sum_absent; [reflexivity |].
    intros H. apply Hn. now apply groupby_pop_keys.
  - rewrite Ek, String.eqb_refl, Ev. rewrite (IH g0 H0), E0. reflexivity.
  - destruct (String.eqb_spec (fst x) (fst g)) as [E | _]; [now symmetry in E |].
    now apply IH.
Qed.

Lemma blockgroup_data_In census g :
  In g (blockgroup_data census) ->
  has_population census (fst g) = true /\ snd g = population_of census (fst g).
Proof.
  unfold blockgroup_data. intros H. apply in_map_iff in H.
  destruct H as [[k v] [<- Hg]]. simpl.
  set (rows := map (fun b => (str_prefix 11 (BLOCK20 b), CIT_22 b)) census) in *.
  split.
  - assert (Hk : In k (map fst rows)).
    { apply groupby_pop_keys. now apply (in_map fst) in Hg. }
    unfold rows in Hk. rewrite map_map in Hk. simpl in Hk. apply in_map_iff in Hk.
    destruct Hk as [b [<- Hb]]. unfold has_population. apply existsb_exists.
    exists b. split; [assumption | apply String.eqb_refl].
  - pose proof (groupby_pop_lookup rows (k, v) Hg) as L. simpl in L. rewrite L.
    unfold key_sum, population_of, rows. rewrite filter_map_comm, map_map. reflexivity.
Qed.

Lemma blockgroup_data_keys census k :
  has_population census k = true -> In k (map fst (blockgroup_data census)).
Proof.
  unfold has_population, blockgroup_data. intros H. apply existsb_exists in H.
  destruct H as [b [Hb E]]. apply String.eqb_eq in E. subst k.
  rewrite map_map. simpl. unfold census_geoid.
  change (fun x : popkey => String "0" (fst x))
    with (fun x : popkey => (fun k => String "0" k) (fst x)).
  rewrite <- (map_map fst (fun k => String "0" k)). apply in_map.
  apply groupby_pop_keys. rewrite map_map. simpl.
  apply in_map_iff. now exists b.
Qed.

Lemma blockgroup_data_NoDup census : NoDup (map fst (blockgroup_data census)).
Proof.
  unfold blockgroup_data. rewrite map_map. simpl.
  change (fun x : popkey => String "0" (fst x))
    with (fun x : popkey => (fun k => String "0" k) (fst x)).
  rewrite <- (map_map fst (fun k => String "0" k)).
  apply Finite.Injective_map_NoDup.
  - intros a b E. now injection E.
  - apply slt_sorted_NoDup, groupby_pop_sorted.
Qed.

(** In a table with one row per key, the rows of a key are none or one. *)
Lemma filter_unique_key {B : Type} (key : B -> string) (l : list B) (k : string) :
  NoDup (map key l) ->
  (~ In k (map key l) /\ filter (fun b => (key b =? k)%string) l = []) \/
  (exists b, In b l /\ key b = k /\ filter (fun b => (key b =? k)%string) l = [b]).
Proof.
  induction l as [| x l IH]; intros Hnd; simpl.
  - left. auto.
  - inversion Hnd as [| ? ? Hx Hnd']; subst.
    destruct (String.eqb_spec (key x) k) as [E | NE].
    + right. exists x. split; [now left |]. split; [assumption |].
      destruct (IH Hnd') as [[_ ->] | [b [Hb [Eb _]]]]; [reflexivity |].
      exfalso. apply Hx. rewrite E, <- Eb. now apply in_map.
    + destruct (IH Hnd') as [[Hn ->] | [b [Hb [Eb ->]]]].
      * left. split; [| reflexivity]. intros [E | H]; auto.
      * right. exists b. auto.
Qed.

Lemma merge_population_and_geometry_eq {G : Type} (lib : geo_lib G)
  (shapes : list (shape_row G)) (census : list census_row) :
  merge_population_and_geometry lib shapes census =
  sort_on p_GEOID20
    (map (populated lib census)
         (filter (fun s => has_population census (s_GEOID20 s)) shapes)).
Proof.
  unfold merge_population_and_geometry. f_equal. unfold merge_inner.
  induction shapes as [| s shapes IH]; [reflexivity |].
  cbn [flat_map filter]. rewrite map_app, IH. clear IH.
  destruct (filter_unique_key fst (blockgroup_data census) (s_GEOID20 s)
              (blockgroup_data_NoDup census)) as [[Hn ->] | [g [Hg [Eg ->]]]].
  - destruct (has_population census (s_GEOID20 s)) eqn:E; [| reflexivity].
    exfalso. apply Hn. now apply blockgroup_data_keys.
  - destruct (blockgroup_data_In census g Hg) as [Hp Hv]. rewrite Eg in Hp, Hv.
    rewrite Hp. simpl. unfold populated. now rewrite Hv.
Qed.

(** X9: [merge_population_and_geometry] returns one row for each shape
    whose GEOID20 is "0" followed by the first 11 characters of some census
    block key, and no other row; the row carries the re-projected buffered
    geometry, the state and county codes joined, and as population the sum,
    NaN skipped, of [CIT_22] over the census blocks of that identifier.  The
    rows come in ascending order of GEOID20. *)
Theorem merge_population_and_geometry_rows {G : Type} (lib : geo_lib G)
  (shapes : list (shape_row G)) (census : list census_row) :
  let out := merge_population_and_geometry lib shapes census in
  Permutation out
    (map (populated lib census)
         (filter (fun s => has_population census (s_GEOID20 s)) shapes)) /\
  ascending p_GEOID20 out /\
  Forall (fun p => exists b, In b census /\
                     p_GEOID20 p = String "0" (str_prefix 11 (BLOCK20 b))) out.
Proof.
  intros out. unfold out. rewrite merge_population_and_geometry_eq.
  split; [apply sort_on_perm |]. split; [apply sort_on_ascending |].
  apply (Permutation_Forall (Permutation_sym (sort_on_perm _ _))).
  apply Forall_forall. intros p Hp. apply in_map_iff in Hp.
  destruct Hp as [s [<- Hs]]. apply filter_In in Hs. destruct Hs as [_ Hs].
  unfold has_population in Hs. apply existsb_exists in Hs.
  destruct Hs as [b [Hb E]]. apply String.eqb_eq in E. exists b. simpl. auto.
Qed.

(** ** Edges added by hand *)

Lemma joins_sym u v e : joins u v e = joins v u e.
Proof. unfold joins. apply orb_comm. Qed.

Lemma has_edge_sym g u v : has_edge g u v = has_edge g v u.
Proof.
  unfold has_edge. induction (edges g) as [| e l IH]; [reflexivity |].
  simpl. now rewrite IH, joins_sym.
Qed.

Lemma joins_ends u v i j :
  joins u v (i, j) = true -> (i = u /\ j = v) \/ (i = v /\ j = u).
Proof.
  unfold joins. simpl. rewrite orb_true_iff, !andb_true_iff, !Nat.eqb_eq. tauto.
Qed.

Lemma has_edge_add_edge g i j u v :
  has_edge (add_edge g i j) u v = has_edge g u v || joins u v (i, j).
Proof.
  unfold add_edge, has_edge at 1. simpl. destruct (has_edge g i j) eqn:E.
  - fold (has_edge g u v). destruct (joins u v (i, j)) eqn:J; [| now rewrite orb_false_r].
    rewrite orb_true_r.
    destruct (joins_ends _ _ _ _ J) as [[-> ->] | [-> ->]];
      [exact E | now rewrite has_edge_sym].
  - rewrite existsb_app. simpl. now rewrite orb_false_r.
Qed.

Lemma add_node_present u ns : In u ns -> add_node u ns = ns.
Proof.
  intros H. unfold add_node. apply mem_In in H. now rewrite H.
Qed.

Lemma first_index_Some k ids i :
  first_index k ids = Some i ->
  nth_error ids i = Some k /\ (i < length ids)%nat /\
  forall j, (j < i)%nat -> nth_error ids j <> Some k.
Proof.
  revert i. induction ids as [| x ids IH]; intros i H; simpl in H; [discriminate |].
  destruct (String.eqb_spec x k) as [E | NE].
  - injection H as <-. subst. simpl. repeat split; [lia | intros j Hj; lia].
  - destruct (first_index k ids) as [n |]; [| discriminate].
    simpl in H. injection H as <-. destruct (IH n eq_refl) as (H1 & H2 & H3).
    simpl. repeat split; [assumption | lia |].
    intros [| j] Hj; simpl; [congruence | apply H3; lia].
Qed.

Lemma first_index_None k ids : first_index k ids = None <-> ~ In k ids.
Proof.
  induction ids as [| x ids IH]; simpl; [tauto |].
  destruct (String.eqb_spec x k) as [E | NE].
  - split; [discriminate | intros H; exfalso; auto].
  - destruct (first_index k ids); simpl.
    + split; [discriminate |]. intros H. exfalso.
      assert (C : ~ In k ids) by tauto. apply IH in C. discriminate.
    + split; [| reflexivity]. intros _ [E | H]; [auto |].
      now apply (proj1 IH eq_refl).
Qed.

Lemma add_edge_by_geoid_step warn ids w pair :
  let w' := add_edge_by_geoid warn ids w pair in
  (forall u v, has_edge (fst w') u v =
     has_edge (fst w) u v ||
     match listed_edge ids pair with Some e => joins u v e | None => false end) /\
  snd w' = snd w ++ (if warn && unlisted ids pair
                     then [warning (fst pair) (snd pair)] else []) /\
  ((forall i, (i < length ids)%nat -> In i (nodes (fst w))) ->
   nodes (fst w') = nodes (fst w)).
Proof.
  unfold add_edge_by_geoid, listed_edge, unlisted, listed_edge.
  destruct (first_index (fst pair) ids) as [i |] eqn:E1;
    [destruct (first_index (snd pair) ids) as [j |] eqn:E2 |]; simpl.
  - split; [intros; apply has_edge_add_edge |].
    split; [now rewrite andb_false_r, app_nil_r |].
    intros H. apply first_index_Some in E1, E2.
    rewrite (add_node_present i) by (apply H; tauto).
    apply add_node_present, H. tauto.
  - split; [intros; now rewrite orb_false_r |].
    split; [rewrite andb_true_r; destruct warn; [reflexivity | now rewrite app_nil_r] |].
    reflexivity.
  - split; [intros; now rewrite orb_false_r |].
    split; [rewrite andb_true_r; destruct warn; [reflexivity | now rewrite app_nil_r] |].
    reflexivity.
Qed.

(** X10: the loop over [custom_edges] never raises and only adds edges:
    afterwards two rows are joined exactly when they were joined before or
    some listed pair names both of them (by their first occurrence in the
    frame, in either order); a pair with an identifier that is not in the
    frame changes nothing and, in [Graphify] only, prints one warning; the
    set of nodes stays as [Graph.from_geodataframe] made it.  Repeating or
    reordering the pairs therefore gives the same graph. *)
Theorem custom_edges_effect (warn : bool) (ids : list string) (w : world)
  (custom_edges : list (string * string)) :
  let w' := add_custom_edges warn ids w custom_edges in
  (forall u v, has_edge (fst w') u v =
     has_edge (fst w) u v || wanted ids custom_edges u v) /\
  snd w' = snd w ++ (if warn
                     then map (fun pair => warning (fst pair) (snd pair))
                              (filter (unlisted ids) custom_edges)
                     else []) /\
  ((forall i, (i < length ids)%nat -> In i (nodes (fst w))) ->
   nodes (fst w') = nodes (fst w)) /\
  (forall pair e, In pair custom_edges -> listed_edge ids pair = Some e ->
     nth_error ids (fst e) = Some (fst pair) /\
     nth_error ids (snd e) = Some (snd pair) /\
     has_edge (fst w') (fst e) (snd e) = true) /\
  (forall pair, unlisted ids pair = true <->
     ~ In (fst pair) ids \/ ~ In (snd pair) ids).
Proof.
  assert (Main : forall w,
    let w' := add_custom_edges warn ids w custom_edges in
    (forall u v, has_edge (fst w') u v =
       has_edge (fst w) u v || wanted ids custom_edges u v) /\
    snd w' = snd w ++ (if warn
                       then map (fun pair => warning (fst pair) (snd pair))
                                (filter (unlisted ids) custom_edges)
                       else []) /\
    ((forall i, (i < length ids)%nat -> In i (nodes (fst w))) ->
     nodes (fst w') = nodes (fst w))).
  { unfold add_custom_edges. clear w.
    induction custom_edges as [| pair rest IH]; intros w.
    - simpl. split; [intros; now rewrite orb_false_r |].
      split; [destruct warn; now rewrite app_nil_r | reflexivity].
    - cbn [fold_left].
      destruct (add_edge_by_geoid_step warn ids w pair) as (S1 & S2 & S3).
      destruct (IH (add_edge_by_geoid warn ids w pair)) as (I1 & I2 & I3).
      split; [| split].
      + intros u v. cbn zeta in I1. rewrite I1, S1. unfold wanted. simpl.
        now rewrite orb_assoc.
      + cbn zeta in I2. rewrite I2, S2, <- app_assoc. f_equal.
        simpl. destruct warn; simpl; [| reflexivity].
        destruct (unlisted ids pair); reflexivity.
      + intros H. cbn zeta in I3. rewrite I3; [now apply S3 |].
        rewrite (S3 H). exact H. }
  intros w'. destruct (Main w) as (M1 & M2 & M3).
  split; [exact M1 |]. split; [exact M2 |]. split; [exact M3 |].
  split; cycle 1.
  { intros pair. unfold unlisted, listed_edge.
    destruct (first_index (fst pair) ids) eqn:E1;
      [destruct (first_index (snd pair) ids) eqn:E2 |].
    - split; [discriminate |]. intros [H | H]; apply first_index_None in H; congruence.
    - split; [| reflexivity]. intros _. right. now apply first_index_None.
    - split; [| reflexivity]. intros _. left. now apply first_index_None. }
  intros pair [i j] Hin He. simpl.
  assert (Hw : wanted ids custom_edges i j = true).
  { unfold wanted. apply existsb_exists. exists pair. split; [assumption |].
    rewrite He. unfold joins. simpl. now rewrite !Nat.eqb_refl. }
  unfold listed_edge in He.
  destruct (first_index (fst pair) ids) as [i' |] eqn:E1; [| discriminate].
  destruct (first_index (snd pair) ids) as [j' |] eqn:E2; [| discriminate].
  injection He as -> ->. apply first_index_Some in E1, E2.
  repeat split; try tauto. unfold w'. rewrite M1, Hw. apply orb_true_r.
Qed.

(** ** [create] and [graphify]: which levels reach the graph *)

Lemma geoid_col_matches level :
  recognized level = true ->
  (geoid_col level =? "GEOID_" ++ level)%string =
  negb ((level =? "tract") || (level =? "county"))%string.
Proof.
  intros H. destruct (recognized_cases level H) as [-> | [-> | [-> | ->]]]; reflexivity.
Qed.

(** X11: [Graphify.create] reaches [Graph.from_geodataframe] only for the
    levels "block" and "blockgroup".  For "tract" and "county", which
    [blockify] accepts, the identifier column is named in upper case, the
    rename to "GEOID20" finds nothing and the merge raises KeyError; any
    other level raises the ValueError of [blockify]. *)
Theorem create_levels {G : Type} (lib : geo_lib G) (self : frames)
  (shapes : list (shape_row G)) (census : list census_row) (level : string)
  (custom_edges : list (string * string)) :
  if recognized level
  then
    if ((level =? "tract") || (level =? "county"))%string
    then create lib self shapes census level custom_edges = Fails KeyError
    else exists votes,
           Graphify.blockify self level = Ok votes /\
           create lib self shapes census level custom_edges =
             finish_graph lib true
               (join_votes (merge_population_and_geometry lib shapes census) votes)
               custom_edges
  else create lib self shapes census level custom_edges = Fails (FromBlockify ValueError).
Proof.
  destruct (recognized level) eqn:E.
  - pose proof (geoid_col_matches level E) as Hcol.
    destruct (rollup_returns self level E) as [votes Hv].
    change (Blockify.rollup self level) with (Graphify.blockify self level) in Hv.
    unfold create, create_gdf. rewrite Hv, Hcol.
    destruct ((level =? "tract") || (level =? "county"))%string; simpl.
    + reflexivity.
    + exists votes. split; reflexivity.
  - destruct (apportion_total self) as [rows Hrows].
    pose proof (rollup_other self rows Hrows level E) as Hv.
    change (Blockify.rollup self level) with (Graphify.blockify self level) in Hv.
    unfold create, create_gdf. now rewrite Hv.
Qed.


(** ** The frame handed to [Graph.from_geodataframe] *)

Lemma join_votes_pops {G : Type} (gdf : list (pop_row G)) (votes : list out_row) :
  NoDup (map geoid votes) ->
  map j_pop (join_votes gdf votes) = filter (has_vote votes) gdf.
Proof.
  intros Hnd. unfold join_votes, merge_inner.
  induction gdf as [| p gdf IH]; [reflexivity |].
  cbn [flat_map filter]. rewrite map_app, IH. clear IH.
  destruct (filter_unique_key geoid votes (p_GEOID20 p) Hnd)
    as [[Hn ->] | [o [Ho [Eo ->]]]].
  - destruct (has_vote votes p) eqn:E; [| reflexivity].
    exfalso. apply Hn. unfold has_vote in E. apply existsb_exists in E.
    destruct E as [o [Ho E]]. apply String.eqb_eq in E. rewrite <- E. now apply in_map.
  - assert (E : has_vote votes p = true).
    { unfold has_vote. apply existsb_exists. exists o.
      split; [assumption | now apply String.eqb_eq]. }
    rewrite E. reflexivity.
Qed.

Lemma join_votes_In {G : Type} (gdf : list (pop_row G)) (votes : list out_row) j :
  In j (join_votes gdf votes) ->
  In (j_pop j) gdf /\ In (j_vote j) votes /\ geoid (j_vote j) = j_GEOID20 j.
Proof.
  unfold join_votes, merge_inner. intros H. apply in_flat_map in H.
  destruct H as [p [Hp H]]. apply in_map_iff in H. destruct H as [o [<- Ho]].
  apply filter_In in Ho. destruct Ho as [Ho E]. apply String.eqb_eq in E.
  unfold j_GEOID20. simpl. auto.
Qed.

Lemma ascending_filter {A : Type} (key : A -> string) (p : A -> bool) l :
  ascending key l -> ascending key (filter p l).
Proof. apply StronglySorted_filter. Qed.

Lemma ascending_map {A B : Type} (f : A -> B) (kb : B -> string) (l : list A) :
  ascending kb (map f l) -> ascending (fun a => kb (f a)) l.
Proof.
  unfold ascending. induction l as [| x l IH]; intros H; [constructor |].
  simpl in H. inversion H as [| ? ? Hs Hx]; subst. constructor; [now apply IH |].
  rewrite Forall_forall in *. intros y Hy. apply Hx. now apply in_map.
Qed.

Lemma first_index_nth (ids : list string) i k :
  NoDup ids -> nth_error ids i = Some k -> first_index k ids = Some i.
Proof.
  revert i. induction ids as [| x ids IH]; intros i Hnd H; [now destruct i |].
  inversion Hnd as [| ? ? Hx Hnd']; subst. destruct i as [| i]; simpl in *.
  - injection H as ->. now rewrite String.eqb_refl.
  - destruct (String.eqb_spec x k) as [E | _].
    + exfalso. apply Hx. subst. eapply nth_error_In; eassumption.
    + now rewrite (IH i Hnd' H).
Qed.

Lemma NoDup_filter {A : Type} (p : A -> bool) (l : list A) :
  NoDup l -> NoDup (filter p l).
Proof.
  induction 1 as [| x l Hx _ IH]; simpl; [constructor |].
  destruct (p x); [| assumption]. constructor; [| assumption].
  intros H. apply filter_In in H. tauto.
Qed.

Lemma NoDup_map_filter {A : Type} (f : A -> string) (p : A -> bool) (l : list A) :
  NoDup (map f l) -> NoDup (map f (filter p l)).
Proof.
  induction l as [| x l IH]; simpl; intros H; [constructor |].
  inversion H as [| ? ? Hx Hnd]; subst.
  destruct (p x); simpl; [| now apply IH]. constructor; [| now apply IH].
  intros Hin. apply Hx. apply in_map_iff in Hin. destruct Hin as [y [E Hy]].
  apply filter_In in Hy. rewrite <- E. apply in_map. tauto.
Qed.

Lemma join_votes_graph_rows {G : Type} (lib : geo_lib G) (shapes : list (shape_row G))
  (census : list census_row) (votes : list out_row) :
  NoDup (map geoid votes) ->
  graph_rows lib shapes census votes
    (join_votes (merge_population_and_geometry lib shapes census) votes).
Proof.
  intros Hnd. set (gdf := merge_population_and_geometry lib shapes census).
  pose proof (join_votes_pops gdf votes Hnd) as Hpops.
  destruct (merge_population_and_geometry_rows lib shapes census) as (Hperm & Hasc & _).
  fold gdf in Hperm, Hasc.
  assert (Hids : map j_GEOID20 (join_votes gdf votes) =
                 map p_GEOID20 (filter (has_vote votes) gdf)).
  { rewrite <- Hpops, map_map. reflexivity. }
  split; [exact Hpops |]. split; [| split; [| split]].
  - intros j Hj. apply join_votes_In in Hj. tauto.
  - intros g. rewrite Hids. split.
    + intros H. apply in_map_iff in H. destruct H as [p [<- Hp]].
      apply filter_In in Hp. destruct Hp as [Hp Hv].
      apply (Permutation_in _ Hperm) in Hp. apply in_map_iff in Hp.
      destruct Hp as [s [<- Hs]]. apply filter_In in Hs. simpl.
      split; [apply in_map; tauto |]. split; [tauto |].
      unfold has_vote in Hv. simpl in Hv. apply existsb_exists in Hv.
      destruct Hv as [o [Ho E]]. apply String.eqb_eq in E. rewrite <- E.
      now apply in_map.
    + intros (Hs & Hp & Hv). apply in_map_iff in Hs. destruct Hs as [s [<- Hs]].
      apply in_map_iff. exists (populated lib census s). split; [reflexivity |].
      apply filter_In. split.
      * apply (Permutation_in _ (Permutation_sym Hperm)). apply in_map.
        apply filter_In. auto.
      * unfold has_vote. simpl. apply in_map_iff in Hv. destruct Hv as [o [E Ho]].
        apply existsb_exists. exists o. split; [assumption | now apply String.eqb_eq].
  - apply (ascending_map j_pop p_GEOID20). rewrite Hpops. now apply ascending_filter.
  - intros Hshapes i j Hnth. apply first_index_nth.
    + rewrite Hids. apply NoDup_map_filter.
      apply (Permutation_NoDup (Permutation_map p_GEOID20 (Permutation_sym Hperm))).
      rewrite map_map. simpl. now apply NoDup_map_filter.
    + now apply map_nth_error.
Qed.

Lemma ids_sorted_NoDup (l : list out_row) : ids_sorted l -> NoDup (map geoid l).
Proof. apply slt_sorted_NoDup. Qed.

Lemma zero_prefixed_NoDup (l : list out_row) :
  NoDup (map geoid l) -> NoDup (map geoid (map zero_prefixed l)).
Proof.
  intros H. rewrite map_map. simpl.
  change (fun x : out_row => String "0" (geoid x))
    with (fun x : out_row => (fun k => String "0" k) (geoid x)).
  rewrite <- (map_map geoid (fun k => String "0" k)).
  apply Finite.Injective_map_NoDup; [| assumption].
  intros a b E. now injection E.
Qed.

(** X13: the frame from which the graph is built holds exactly the block
    groups that have a shape, a population and votes, in ascending order of
    GEOID20, each with the population row of its shape and the vote row of
    its identifier (in [Cultivate.graphify] the identifier of
    [Cultivate.blockify] with "0" in front); a block group with votes and no
    shape or no population is left out without an error.  With distinct
    shape identifiers, looking a row up by its GEOID20 gives its own
    position, which is its node. *)
Theorem graph_frame {G : Type} (lib : geo_lib G) (self : frames)
  (shapes : list (shape_row G)) (census : list census_row) :
  (exists votes rows,
     Graphify.blockify self "blockgroup" = Ok votes /\
     create_gdf lib self shapes census "blockgroup" = Built rows /\
     graph_rows lib shapes census votes rows) /\
  (exists votes rows,
     Graphify.blockify self "block" = Ok votes /\
     create_gdf lib self shapes census "block" = Built rows /\
     graph_rows lib shapes census votes rows) /\
  (exists votes rows,
     Cultivate.blockify self "blockgroup" = Ok votes /\
     graphify_gdf lib self shapes census "blockgroup" = Built rows /\
     graph_rows lib shapes census (map zero_prefixed votes) rows).
Proof.
  destruct (apportion_total self) as [rows Hrows].
  pose proof (rollup_blockgroup self rows Hrows) as Hbg.
  pose proof (rollup_block self rows Hrows) as Hb.
  pose proof (cultivate_blockgroup self rows Hrows) as Hc.
  change (Blockify.rollup self) with (Graphify.blockify self) in Hbg, Hb.
  split; [| split].
  - eexists. eexists. split; [exact Hbg |]. unfold create_gdf. rewrite Hbg.
    split; [reflexivity |]. apply join_votes_graph_rows.
    apply ids_sorted_NoDup, aggregate_sorted.
  - eexists. eexists. split; [exact Hb |]. unfold create_gdf. rewrite Hb.
    split; [reflexivity |]. apply join_votes_graph_rows.
    apply ids_sorted_NoDup, block_table_sorted.
  - eexists. eexists. split; [exact Hc |]. unfold graphify_gdf. rewrite Hc.
    split; [reflexivity |]. apply join_votes_graph_rows.
    apply zero_prefixed_NoDup, ids_sorted_NoDup, aggregate_sorted.
Qed.

Lemma str_prefix_nested n m s :
  (n <= m)%nat -> str_prefix n (str_prefix m s) = str_prefix n s.
Proof.
  unfold str_prefix. revert n m. induction s as [| c s IH]; intros n m H.
  - destruct m; destruct n; reflexivity.
  - destruct n as [| n]; [destruct m; reflexivity |].
    destruct m as [| m]; [lia |]. simpl. rewrite IH by lia. reflexivity.
Qed.

Lemma keys_map_all (h : string -> string) (l : list keyed) t :
  In t (map fst (map (fun g => (h (fst g), snd g)) l)) <->
  exists k, In k (map fst l) /\ h k = t.
Proof.
  rewrite map_map. simpl. rewrite in_map_iff. split.
  - intros [g [E Hg]]. exists (fst g). split; [now apply in_map | assumption].
  - intros [k [Hk E]]. apply in_map_iff in Hk. destruct Hk as [g [<- Hg]]. now exists g.
Qed.

Lemma sum_where_map_key (h : string -> string) P f l :
  (forall g, f (h (fst g), snd g) = f g) ->
  sum_where P f (map (fun g => (h (fst g), snd g)) l) =
  sum_where (fun k => P (h k)) f l.
Proof.
  intros Hf. induction l as [| g l IH]; [reflexivity |].
  simpl. rewrite !sum_where_cons, IH. simpl. now rewrite Hf.
Qed.

(** Grouping on [h2] of a table grouped on [h1] is grouping on both at
    once. *)
Lemma regroup_twice (h1 h2 : string -> string) (K : list keyed) :
  groupby_sum (map (fun g => (h2 (fst g), snd g))
                   (groupby_sum (map (fun g => (h1 (fst g), snd g)) K))) =
  groupby_sum (map (fun g => (h2 (h1 (fst g)), snd g)) K).
Proof.
  apply keys_sorted_ext; try apply groupby_sum_sorted.
  - intros t. rewrite !groupby_sum_keys, keys_map_all.
    rewrite (keys_map_all (fun k => h2 (h1 k)) K). split.
    + intros [k [Hk E]]. apply (proj1 (groupby_sum_keys _ _)) in Hk.
      apply (proj1 (keys_map_all h1 K k)) in Hk.
      destruct Hk as [k0 [H0 E0]]. exists k0. subst. auto.
    + intros [k [Hk E]]. exists (h1 k). split; [| assumption].
      apply (proj2 (groupby_sum_keys _ _)). apply (proj2 (keys_map_all h1 K (h1 k))).
      now exists k.
  - intros t. rewrite !groupby_sum_dem, sum_where_map_key by reflexivity.
    rewrite groupby_sum_dem, sum_where_map_key by reflexivity.
    now rewrite (sum_where_map_key (fun k => h2 (h1 k))) by reflexivity.
  - intros t. rewrite !groupby_sum_rep, sum_where_map_key by reflexivity.
    rewrite groupby_sum_rep, sum_where_map_key by reflexivity.
    now rewrite (sum_where_map_key (fun k => h2 (h1 k))) by reflexivity.
Qed.

Lemma aggregate_nested n m blocks :
  (n <= m)%nat -> aggregate n (aggregate m blocks) = aggregate n blocks.
Proof.
  intros H. rewrite !aggregate_eq, by_prefix_with_tot. f_equal.
  unfold on_prefix.
  assert (E : map (by_prefix m) blocks =
              map (fun g => (str_prefix m (fst g), snd g))
                  (map (fun b => (geoid b, (dem b, rep b))) blocks)).
  { rewrite map_map. reflexivity. }
  rewrite E, (regroup_twice (str_prefix m) (str_prefix n)), map_map. simpl.
  f_equal. apply map_ext. intros b. unfold by_prefix.
  now rewrite str_prefix_nested.
Qed.

(** X14: the levels are nested: regrouping the "blockgroup" table that
    [Blockify.rollup] or [Graphify.blockify] returns on the first 11
    characters gives the "tract" table, and regrouping the "blockgroup" or
    the "tract" table on the first 5 characters gives the "county" table. *)
Theorem levels_nested (self : frames) :
  exists blockgroups tracts counties,
    Blockify.rollup self "blockgroup" = Ok blockgroups /\
    Blockify.rollup self "tract" = Ok tracts /\
    Blockify.rollup self "county" = Ok counties /\
    Graphify.blockify self "blockgroup" = Ok blockgroups /\
    Graphify.blockify self "tract" = Ok tracts /\
    Graphify.blockify self "county" = Ok counties /\
    aggregate 11 blockgroups = tracts /\
    aggregate 5 blockgroups = counties /\
    aggregate 5 tracts = counties.
Proof.
  destruct (apportion_total self) as [rows Hrows].
  change (Graphify.blockify self) with (Blockify.rollup self).
  rewrite (rollup_blockgroup self rows Hrows), (rollup_tract self rows Hrows),
    (rollup_county self rows Hrows).
  do 3 eexists. repeat (split; [reflexivity |]).
  repeat split; apply aggregate_nested; lia.
Qed.

(** ** The graph that comes back *)

(** X15: when [Graph.from_geodataframe] returns a graph on the frame, both
    [Graphify.create] and [Cultivate.graphify] return that graph with the
    listed pairs added: two rows are joined exactly when the library joined
    them or a listed pair names them; [Graphify.create] prints one warning
    for each pair with an identifier that is not in the frame and
    [Cultivate.graphify] prints none. *)
Theorem graph_returned {G : Type} (lib : geo_lib G) (self : frames)
  (shapes : list (shape_row G)) (census : list census_row) (level : string)
  (custom_edges : list (string * string)) (rows : list (joined_row G)) (g0 : graph)
  (warn : bool)
  (Hrows : (warn = true /\ create_gdf lib self shapes census level = Built rows) \/
           (warn = false /\ graphify_gdf lib self shapes census level = Built rows))
  (Hg0 : from_geodataframe lib rows = Some g0) :
  exists g out,
    (if warn then create lib self shapes census level custom_edges
     else graphify lib self shapes census level custom_edges) = Built (g, out) /\
    (forall u v, has_edge g u v =
       has_edge g0 u v || wanted (map j_GEOID20 rows) custom_edges u v) /\
    out = (if warn
           then map (fun pair => warning (fst pair) (snd pair))
                    (filter (unlisted (map j_GEOID20 rows)) custom_edges)
           else []) /\
    ((forall i, (i < length rows)%nat -> In i (nodes g0)) -> nodes g = nodes g0).
Proof.
  destruct (custom_edges_effect warn (map j_GEOID20 rows) (g0, []) custom_edges)
    as (E1 & E2 & E3 & _).
  exists (fst (add_custom_edges warn (map j_GEOID20 rows) (g0, []) custom_edges)),
         (snd (add_custom_edges warn (map j_GEOID20 rows) (g0, []) custom_edges)).
  split; [| split; [exact E1 | split; [exact E2 |]]].
  - destruct Hrows as [[-> Hr] | [-> Hr]].
    + unfold create. rewrite Hr. unfold finish_graph. rewrite Hg0.
      now destruct (add_custom_edges _ _ _ _).
    + unfold graphify. rewrite Hr. unfold finish_graph. rewrite Hg0.
      now destruct (add_custom_edges _ _ _ _).
  - intros H. apply E3. simpl. now rewrite length_map.
Qed.

Lemma graph_returned_witness :
  exists g out,
    create unit_lib covered_example two_shapes three_blocks "blockgroup" two_pairs =
      Built (g, out) /\
    has_edge g 0 1 = true /\
    out = [ warning "060010001001" "069999999999" ].
Proof.
  pose proof (fun rows g0 =>
                graph_returned unit_lib covered_example two_shapes three_blocks
                  "blockgroup" two_pairs rows g0 true) as T.
  edestruct T as (g & out & H1 & H2 & H3 & _).
  - left. split; [reflexivity |]. vm_compute. reflexivity.
  - vm_compute. reflexivity.
  - exists g, out. split; [exact H1 |]. split; [| exact H3].
    rewrite H2. vm_compute. reflexivity.
Defined.

(** * Construction: the year *)

Example default_years :
  (exists h, harvest_init any_year_config (PyInt 2022) = Made h) /\
  cultivate_harvester any_year_config (PyStr "2022") = Refused YearError.
Proof. split; [eexists |]; reflexivity. Qed.

(** X16: a [Harvest] is built only for the integer 2022, from a config that
    loads and holds the four addresses; every text year is refused,
    "2022" included.  [Cultivate.__init__] hands its [year] on unchanged
    and has the text "2022" as its default, so with a text year it never
    gets past the construction of its [Harvest]. *)
Theorem year_must_be_integer (load_config : pyval -> option config) (year : pyval) :
  ((exists h, harvest_init load_config year = Made h) <->
   year = PyInt 2022 /\
   exists cfg, load_config year = Some cfg /\
     config_get "SRPREC_vote_url" cfg <> None /\
     config_get "conversion_url" cfg <> None /\
     config_get "census_url" cfg <> None /\
     config_get "shapefile_url" cfg <> None) /\
  (forall s, harvest_init load_config (PyStr s) = Refused YearError) /\
  (forall s, cultivate_harvester load_config (PyStr s) = Refused YearError \/
             cultivate_harvester load_config (PyStr s) = Refused ConfigError).
Proof.
  split; [| split].
  - unfold harvest_init. split.
    + intros [h H]. destruct year as [z | s]; simpl in H; [| discriminate].
      destruct (Z.eqb_spec z 2022) as [-> | NE]; simpl in H; [| discriminate].
      split; [reflexivity |].
      destruct (load_config (PyInt 2022)) as [cfg |]; [| discriminate].
      exists cfg. split; [reflexivity |]. unfold subscript in H.
      destruct (config_get "SRPREC_vote_url" cfg); [| discriminate].
      destruct (config_get "conversion_url" cfg); [| discriminate].
      destruct (config_get "census_url" cfg); [| discriminate].
      destruct (config_get "shapefile_url" cfg); [| discriminate].
      repeat split; discriminate.
    + intros [-> [cfg [-> (H1 & H2 & H3 & H4)]]]. simpl. unfold subscript.
      destruct (config_get "SRPREC_vote_url" cfg); [| contradiction].
      destruct (config_get "conversion_url" cfg); [| contradiction].
      destruct (config_get "census_url" cfg); [| contradiction].
      destruct (config_get "shapefile_url" cfg); [| contradiction].
      simpl. eexists. reflexivity.
  - reflexivity.
  - intros s. unfold cultivate_harvester.
    destruct (load_config (PyStr s)); [left | right]; reflexivity.
Qed.

(** * Precincts with any number of vote records *)







